(** * StreamMessagesHandler (langgraph/pregel/messages.py)

    A shallow embedding of the callback handler that implements
    [stream_mode=messages]: the run registry [self.metadata], the set
    [self.seen] of message identities, the emitter [_emit], the recursive
    extractor [_process_response] and the seven lifecycle callbacks.

    Python objects live in a heap with one store per class; a value of type
    [Any] is [None], a [str], or a reference into one of the stores.  The
    handler mutates message objects (their [id]) and metadata dicts (their
    ["tags"] entry) in place, so both are kept in the heap and the chunks
    handed to the sink hold references, as in the source. *)

From Stdlib Require Import String Ascii.
From stdpp Require Import base decidable option list strings pretty gmap fin_sets.

Open Scope string_scope.
Open Scope list_scope.

(** ** Python values and the heap *)

Definition loc := nat.
Definition UUID := N.

Inductive value : Type :=
| VNone
| VStr (s : string)
| VMessage (l : loc)   (* an instance of BaseMessage *)
| VDict (l : loc)      (* an instance of dict *)
| VSeq (l : loc)       (* a list or tuple: a Sequence that is not a str *)
| VObject (l : loc).   (* an instance of any other class *)

Inductive exn : Type :=
| AttributeError
| KeyError
| ValueError
| Exception (name : string).

Global Instance exn_eq_dec : EqDecision exn.
Proof. solve_decision. Defined.

Global Instance value_eq_dec : EqDecision value.
Proof. solve_decision. Defined.

(** [langchain_core.messages.BaseMessage]: only the optional identity is read
    or written by the handler. *)
Record BaseMessage : Type := mkBaseMessage {
  id : option string;
  content : string;
}.

Global Instance BaseMessage_inhabited : Inhabited BaseMessage :=
  populate (mkBaseMessage None "").

(** The outcome of [getattr(obj, key)] for a name listed by [dir(obj)]. *)
Inductive getattr_result : Type :=
| Returns (v : value)
| Raises (e : exn).

(** An object of a class other than BaseMessage, dict, list, tuple and str:
    whether it is a [langgraph.types.Command], and its [dir()] listing, each
    name paired with what reading it yields. *)
Record object : Type := mkObject {
  isinstance_Command : bool;
  attrs : list (string * getattr_result);
}.

Global Instance object_inhabited : Inhabited object :=
  populate (mkObject false []).

(** [Meta = tuple[tuple[str, ...], dict[str, Any]]]: the namespace path and a
    reference to the run's metadata dict. *)
Abbreviation Meta := (list string * loc)%type (only parsing).

(** [StreamChunk]: [(namespace, mode, (message, metadata))]. *)
Abbreviation StreamChunk := (list string * string * (loc * loc))%type (only parsing).

Definition chunk_message (c : StreamChunk) : loc := fst (snd c).

(** The handler instance together with the part of the world it acts on.
    A location outside the domain of a store reads as the empty object of
    that class. *)
Record State : Type := mkState {
  self_metadata : gmap UUID Meta;
  self_seen : gset (option string);
  stream : list StreamChunk;      (* arguments of the calls to self.stream *)
  messages : gmap loc BaseMessage;
  dicts : gmap loc (list (string * value));
  seqs : gmap loc (list value);
  objects : gmap loc object;
  uuid_calls : nat;               (* number of uuid4() results consumed *)
}.

Definition set_self_metadata (f : gmap UUID Meta → gmap UUID Meta) (st : State) : State :=
  mkState (f (self_metadata st)) (self_seen st) (stream st) (messages st)
          (dicts st) (seqs st) (objects st) (uuid_calls st).

Definition set_self_seen (f : gset (option string) → gset (option string)) (st : State) : State :=
  mkState (self_metadata st) (f (self_seen st)) (stream st) (messages st)
          (dicts st) (seqs st) (objects st) (uuid_calls st).

Definition set_stream (f : list StreamChunk → list StreamChunk) (st : State) : State :=
  mkState (self_metadata st) (self_seen st) (f (stream st)) (messages st)
          (dicts st) (seqs st) (objects st) (uuid_calls st).

Definition set_messages (f : gmap loc BaseMessage → gmap loc BaseMessage) (st : State) : State :=
  mkState (self_metadata st) (self_seen st) (stream st) (f (messages st))
          (dicts st) (seqs st) (objects st) (uuid_calls st).

Definition set_dicts (f : gmap loc (list (string * value)) → gmap loc (list (string * value)))
    (st : State) : State :=
  mkState (self_metadata st) (self_seen st) (stream st) (messages st)
          (f (dicts st)) (seqs st) (objects st) (uuid_calls st).

Definition set_seqs (f : gmap loc (list value) → gmap loc (list value)) (st : State) : State :=
  mkState (self_metadata st) (self_seen st) (stream st) (messages st)
          (dicts st) (f (seqs st)) (objects st) (uuid_calls st).

Definition set_uuid_calls (f : nat → nat) (st : State) : State :=
  mkState (self_metadata st) (self_seen st) (stream st) (messages st)
          (dicts st) (seqs st) (objects st) (f (uuid_calls st)).

(** [StreamMessagesHandler.__init__] over a given heap. *)
Definition __init__ (st : State) : State :=
  mkState ∅ ∅ [] (messages st) (dicts st) (seqs st) (objects st) (uuid_calls st).

(** ** Procedures: state passing with an optional raised exception *)

Definition proc : Type := State → State * option exn.

Definition ret : proc := fun st => (st, None).
Definition raise (e : exn) : proc := fun st => (st, Some e).

Definition seq_proc (p q : proc) : proc := fun st =>
  match p st with
  | (st', None) => q st'
  | r => r
  end.

Notation "p ;> q" := (seq_proc p q) (at level 100, q at level 200, right associativity).

(** [for x in xs: body(x)]; an exception leaves the loop. *)
Fixpoint for_each {A : Type} (xs : list A) (body : A → proc) : proc :=
  match xs with
  | [] => ret
  | x :: xs' => body x ;> for_each xs' body
  end.

(** [try: p  except AttributeError: pass] *)
Definition try_except_AttributeError (p : proc) : proc := fun st =>
  match p st with
  | (st', Some AttributeError) => (st', None)
  | r => r
  end.

(** ** String helpers *)

Definition startswith (s pre : string) : bool := String.prefix pre s.

Definition endswith (s suf : string) : bool :=
  String.prefix (String.rev suf) (String.rev s).

(** [s.split(sep)] for a non-empty separator. [skip] counts the characters of
    a separator occurrence still to be passed over. *)
Fixpoint split_go (sep s : string) (skip : nat) (cur : string) : list string :=
  match s with
  | EmptyString => [cur]
  | String c s' =>
      match skip with
      | S k => split_go sep s' k cur
      | O =>
          if String.prefix sep s
          then cur :: split_go sep s' (String.length sep - 1) ""
          else split_go sep s' 0 (cur +:+ String c "")
      end
  end.

Definition split (s sep : string) : exn + list string :=
  match sep with
  | EmptyString => inl ValueError
  | _ => inr (split_go sep s 0 "")
  end.

Section Handler.

(** [uuid.uuid4]: the n-th call returns [uuid4 n] (already a [str]). *)
Variable uuid4 : nat → string.

(** [langgraph.constants] *)
Variable NS_SEP : string.
Variable TAG_HIDDEN : string.
Variable TAG_NOSTREAM : string.

(** ** The emitter *)

Definition set_id (message : loc) (i : option string) (st : State) : State :=
  set_messages
    (<[message := mkBaseMessage i (content (messages st !!! message))]>) st.

Definition message_id (st : State) (message : loc) : option string :=
  id (messages st !!! message).

Definition _emit (meta : Meta) (message : loc) (dedupe : bool) (st : State) : State :=
  if dedupe && bool_decide (message_id st message ∈ self_seen st) then st
  else
    let st1 :=
      match message_id st message with
      | None => set_uuid_calls S (set_id message (Some (uuid4 (uuid_calls st))) st)
      | Some _ => st
      end in
    let st2 := set_self_seen (fun seen => {[ message_id st1 message ]} ∪ seen) st1 in
    set_stream (fun out => out ++ [(fst meta, "messages", (message, snd meta))]) st2.

(** ** The recursive extractor *)

(** [hasattr(response, "__dir__") and callable(response.__dir__)]: the class
    [object] defines [__dir__], so the test holds of every Python value. *)
Definition hasattr_callable_dir (response : value) : bool := true.

Definition isinstance_of_Command (st : State) (response : value) : bool :=
  match response with
  | VObject o => isinstance_Command (objects st !!! o)
  | _ => false
  end.

(** [dir(response)], each name with the outcome of [getattr(response, name)].
    The names a [str] lists without double underscores are its methods, and
    a builtin method lists dunder names only: walking a [str] reads
    attributes, emits nothing and changes no state, so its listing is left
    empty. *)
Definition dir_getattr (st : State) (response : value) : list (string * getattr_result) :=
  match response with
  | VObject o => attrs (objects st !!! o)
  | _ => []
  end.

Fixpoint assoc {A : Type} (key : string) (items : list (string * A)) : option A :=
  match items with
  | [] => None
  | (k, v) :: items' => if bool_decide (k = key) then Some v else assoc key items'
  end.

Definition getattr (st : State) (response : value) (key : string) : getattr_result :=
  match assoc key (dir_getattr st response) with
  | Some r => r
  | None => Raises AttributeError
  end.

(** The body of [_process_response] below its two early returns, with the
    recursive call [self._process_response(v, meta, depth + 1)] as [recur]. *)
Definition visit (recur : value → proc) (response : value) (meta : Meta) : proc :=
  fun st =>
  match response with
  | VNone => ret st
  | VMessage message => ret (_emit meta message true st)
  | VDict d => for_each (dicts st !!! d) (fun kv => recur (snd kv)) st
  | VSeq s => for_each (seqs st !!! s) recur st
  | VStr _ | VObject _ =>
      if hasattr_callable_dir response then
        for_each (dir_getattr st response) (fun kv =>
          if startswith (fst kv) "__" && endswith (fst kv) "__" then ret
          else try_except_AttributeError
                 match snd kv with
                 | Returns v => recur v
                 | Raises e => raise e
                 end) st
      else if isinstance_of_Command st response then
        match getattr st response "update" with
        | Returns v => recur v st
        | Raises e => raise e st
        end
      else ret st
  end.

(** [process_response rem response meta] is [_process_response(response, meta,
    depth)] for [rem = 5 - depth]: the test [depth >= 5] is [rem = 0] and the
    recursive calls at [depth + 1] are at [rem - 1]. *)
Fixpoint process_response (rem : nat) (response : value) (meta : Meta) : proc :=
  match response with
  | VNone => ret
  | _ =>
      match rem with
      | O => ret
      | S rem' => visit (fun v => process_response rem' v meta) response meta
      end
  end.

Definition _process_response (response : value) (meta : Meta) (depth : nat) : proc :=
  process_response (5 - depth) response meta.

(** ** The callbacks *)

(** Truth value of an [Optional[dict]] argument. *)
Definition truthy_dict (st : State) (metadata : option loc) : bool :=
  match metadata with
  | Some d => match dicts st !!! d with [] => false | _ => true end
  | None => false
  end.

(** [not tags or TAG not in tags] *)
Definition not_tagged (tag : string) (tags : option (list string)) : bool :=
  match tags with
  | None | Some [] => true
  | Some ts => negb (bool_decide (tag ∈ ts))
  end.

(** [tuple(cast(str, metadata["langgraph_checkpoint_ns"]).split(NS_SEP))] *)
Definition checkpoint_ns (st : State) (d : loc) : exn + list string :=
  match assoc "langgraph_checkpoint_ns" (dicts st !!! d) with
  | None => inl KeyError
  | Some (VStr s) => split s NS_SEP
  | Some _ => inl AttributeError
  end.

(** [self.metadata[run_id] = (tuple(...), metadata)] *)
Definition register (run_id : UUID) (d : loc) : proc := fun st =>
  match checkpoint_ns st d with
  | inl e => raise e st
  | inr ns => ret (set_self_metadata (<[run_id := (ns, d)]>) st)
  end.

Definition on_chat_model_start (run_id : UUID) (tags : option (list string))
    (metadata : option loc) : proc := fun st =>
  match metadata with
  | Some d =>
      if truthy_dict st metadata && not_tagged TAG_NOSTREAM tags
      then register run_id d st
      else ret st
  | None => ret st
  end.

(** The [chunk] argument of [on_llm_new_token]. *)
Inductive chunk_arg : Type :=
| NoChunk                               (* None *)
| GenerationChunk (text : string)       (* a chunk of another class *)
| ChatGenerationChunk (message : loc).

(** [d[key] = v] on the contents of a dict: an existing key keeps its place. *)
Fixpoint setitem (key : string) (v : value) (items : list (string * value))
    : list (string * value) :=
  match items with
  | [] => [(key, v)]
  | (k, v') :: items' =>
      if bool_decide (k = key) then (k, v) :: items'
      else (k, v') :: setitem key v items'
  end.

(** [meta[1]["tags"] = filtered_tags]: the list built by the comprehension is a
    new object. *)
Definition set_tags (d : loc) (filtered_tags : list string) (st : State) : State :=
  let l := fresh (dom (seqs st)) in
  set_dicts (<[d := setitem "tags" (VSeq l) (dicts st !!! d)]>)
    (set_seqs (<[l := VStr <$> filtered_tags]>) st).

Definition on_llm_new_token (chunk : chunk_arg) (run_id : UUID)
    (tags : option (list string)) : proc := fun st =>
  match chunk with
  | ChatGenerationChunk message =>
      match self_metadata st !! run_id with
      | Some meta =>
          let filtered_tags :=
            List.filter (fun t => negb (startswith t "seq:step")) (default [] tags) in
          let st1 :=
            match filtered_tags with
            | [] => st
            | _ => set_tags (snd meta) filtered_tags st
            end in
          ret (_emit meta message false st1)
      | None => ret st
      end
  | _ => ret st
  end.

Definition on_llm_end (run_id : UUID) : proc := fun st =>
  ret (set_self_metadata (delete run_id) st).

Definition on_llm_error (run_id : UUID) : proc := fun st =>
  ret (set_self_metadata (delete run_id) st).

(** [kwargs.get("name") == metadata.get("langgraph_node")], the name being a
    [str] when given. *)
Definition name_eq (name : option string) (node : option value) : bool :=
  match name, node with
  | None, None | None, Some VNone => true
  | Some s, Some (VStr s') => bool_decide (s = s')
  | _, _ => false
  end.

(** [if m.id is not None: self.seen.add(m.id)] *)
Definition seed_message (message : loc) : proc := fun st =>
  match message_id st message with
  | Some x => ret (set_self_seen (fun seen => {[ Some x ]} ∪ seen) st)
  | None => ret st
  end.

(** The body of [for item in value]. *)
Definition seed_item (item : value) : proc :=
  match item with
  | VMessage message => seed_message message
  | _ => ret
  end.

(** The body of [for key, value in inputs.items()]. *)
Definition seed_entry (kv : string * value) : proc :=
  match snd kv with
  | VMessage message => seed_message message
  | VSeq s => fun st => for_each (seqs st !!! s) seed_item st
  | _ => ret
  end.

(** [if isinstance(inputs, dict): for key, value in inputs.items(): ...] *)
Definition seed_inputs (inputs : value) : proc := fun st =>
  match inputs with
  | VDict d => for_each (dicts st !!! d) seed_entry st
  | _ => ret st
  end.

Definition on_chain_start (inputs : value) (run_id : UUID) (tags : option (list string))
    (metadata : option loc) (name : option string) : proc := fun st =>
  match metadata with
  | Some d =>
      if truthy_dict st metadata
         && name_eq name (assoc "langgraph_node" (dicts st !!! d))
         && not_tagged TAG_HIDDEN tags
      then (register run_id d ;> seed_inputs inputs) st
      else ret st
  | None => ret st
  end.

(** [if meta := self.metadata.pop(run_id, None): ...]; a 2-tuple is truthy. *)
Definition on_chain_end (response : value) (run_id : UUID) : proc := fun st =>
  let popped := self_metadata st !! run_id in
  let st' := set_self_metadata (delete run_id) st in
  match popped with
  | Some meta => _process_response response meta 0 st'
  | None => ret st'
  end.

Definition on_chain_error (run_id : UUID) : proc := fun st =>
  ret (set_self_metadata (delete run_id) st).

(** ** Event traces *)

Inductive event : Type :=
| ChatModelStart (run_id : UUID) (tags : option (list string)) (metadata : option loc)
| LLMNewToken (chunk : chunk_arg) (run_id : UUID) (tags : option (list string))
| LLMEnd (run_id : UUID)
| LLMError (run_id : UUID)
| ChainStart (inputs : value) (run_id : UUID) (tags : option (list string))
    (metadata : option loc) (name : option string)
| ChainEnd (response : value) (run_id : UUID)
| ChainError (run_id : UUID).

Definition handle (e : event) : proc :=
  match e with
  | ChatModelStart run_id tags metadata => on_chat_model_start run_id tags metadata
  | LLMNewToken chunk run_id tags => on_llm_new_token chunk run_id tags
  | LLMEnd run_id => on_llm_end run_id
  | LLMError run_id => on_llm_error run_id
  | ChainStart inputs run_id tags metadata name =>
      on_chain_start inputs run_id tags metadata name
  | ChainEnd response run_id => on_chain_end response run_id
  | ChainError run_id => on_chain_error run_id
  end.

(** What the host may do between two callbacks: create and mutate objects and
    draw identifiers from [uuid4]; the handler's own fields and the chunks
    already handed over are out of its reach. *)
Definition host_step (st st' : State) : Prop :=
  self_metadata st' = self_metadata st ∧ self_seen st' = self_seen st
  ∧ stream st' = stream st ∧ (uuid_calls st ≤ uuid_calls st')%nat.

(** The states a handler goes through: created over some heap, then driven by
    callbacks; an exception raised by a callback goes to the host and the
    handler stays in use.  The states between the emissions of one callback
    are included ([reachable_emit]), so that what holds of every reachable
    state holds at every call of the emitter.  [H] constrains the heaps the
    host presents. *)
Inductive reachable_in (H : State → Prop) : State → Prop :=
| reachable_init st : H st → reachable_in H (__init__ st)
| reachable_callback e st : reachable_in H st → reachable_in H (fst (handle e st))
| reachable_emit meta message dedupe st :
    reachable_in H st → reachable_in H (_emit meta message dedupe st)
| reachable_host st st' :
    reachable_in H st → host_step st st' → H st' → reachable_in H st'.

Definition reachable : State → Prop := reachable_in (fun _ => True).

(** No message carries an identifier that [uuid4] has yet to return. *)
Definition unforged (st : State) : Prop :=
  ∀ (l : loc) (n : nat), (uuid_calls st ≤ n)%nat → message_id st l ≠ Some (uuid4 n).

(** The chunk [_emit] hands to the sink. *)
Definition chunk_of (meta : Meta) (message : loc) : StreamChunk :=
  (fst meta, "messages", (message, snd meta)).

(** The identity a message carries once emitted. *)
Definition emitted_id (st : State) (message : loc) : option string :=
  match message_id st message with
  | Some x => Some x
  | None => Some (uuid4 (uuid_calls st))
  end.

(** What one walk of the extractor (dedupe on) does to the state: the registry
    and the containers are left alone, the Seen-Set grows by non-null
    identities, an identity once set stays, and every chunk handed to the
    sink carries a message whose identity, if it had one, was not in the
    Seen-Set. *)
Record walk_rel (st st' : State) : Prop := mk_walk_rel {
  walk_metadata : self_metadata st' = self_metadata st;
  walk_dicts : dicts st' = dicts st;
  walk_seqs : seqs st' = seqs st;
  walk_objects : objects st' = objects st;
  walk_seen : self_seen st ⊆ self_seen st';
  walk_seen_None : None ∉ self_seen st → None ∉ self_seen st';
  walk_ids : ∀ l x, message_id st l = Some x → message_id st' l = Some x;
  walk_stream : ∃ new, stream st' = stream st ++ new ∧
    ∀ c, c ∈ new →
      ∀ x, message_id st (chunk_message c) = Some x → Some x ∉ self_seen st;
}.

(** [nested st n v r]: [r] sits below [v] inside [n] containers, each a dict
    or a sequence holding that one value. *)
Inductive nested (st : State) : nat → value → value → Prop :=
| nested_here v : nested st 0 v v
| nested_seq n s v r :
    seqs st !!! s = [v] → nested st n v r → nested st (S n) (VSeq s) r
| nested_dict n d k v r :
    dicts st !!! d = [(k, v)] → nested st n v r → nested st (S n) (VDict d) r.

(** [message] is a value of the dict [inputs], or an element of a sequence
    that is one of its values. *)
Definition input_message (st : State) (inputs : value) (message : loc) : Prop :=
  ∃ d k v, inputs = VDict d ∧ (k, v) ∈ dicts st !!! d
    ∧ (v = VMessage message ∨ ∃ s, v = VSeq s ∧ VMessage message ∈ seqs st !!! s).

(** What seeding does to the state: only the Seen-Set changes, and it grows
    by identities that messages of the heap carry. *)
Record seed_rel (st st' : State) : Prop := mk_seed_rel {
  seed_metadata : self_metadata st' = self_metadata st;
  seed_stream : stream st' = stream st;
  seed_messages : messages st' = messages st;
  seed_dicts : dicts st' = dicts st;
  seed_seqs : seqs st' = seqs st;
  seed_objects : objects st' = objects st;
  seed_uuid_calls : uuid_calls st' = uuid_calls st;
  seed_seen : self_seen st ⊆ self_seen st';
  seed_new : ∀ i, i ∈ self_seen st' →
    i ∈ self_seen st ∨ ∃ l x, i = Some x ∧ message_id st l = Some x;
}.

(** No identifier that [uuid4] has yet to return is in the Seen-Set. *)
Definition pending_unseen (st : State) : Prop :=
  ∀ n : nat, (uuid_calls st ≤ n)%nat → Some (uuid4 n) ∉ self_seen st.

(** What any callback does to identities: [uuid4] is only drawn from, a
    message keeps the identity it has and gets one from [uuid4] otherwise,
    and what enters the Seen-Set is an identity some message carried or one
    just drawn. *)
Record grow (st st' : State) : Prop := mk_grow {
  grow_uuid_calls : (uuid_calls st ≤ uuid_calls st')%nat;
  grow_ids : ∀ l,
    message_id st' l = message_id st l
    ∨ ∃ n, (uuid_calls st ≤ n < uuid_calls st')%nat ∧ message_id st' l = Some (uuid4 n);
  grow_seen : ∀ i, i ∈ self_seen st' →
    i ∈ self_seen st
    ∨ (∃ l x, i = Some x ∧ message_id st l = Some x)
    ∨ ∃ n, (uuid_calls st ≤ n < uuid_calls st')%nat ∧ i = Some (uuid4 n);
}.

(** ** Vocabulary for whole callbacks *)

(** The run an event is about. *)
Definition event_run_id (e : event) : UUID :=
  match e with
  | ChatModelStart run_id _ _ => run_id
  | LLMNewToken _ run_id _ => run_id
  | LLMEnd run_id => run_id
  | LLMError run_id => run_id
  | ChainStart _ run_id _ _ _ => run_id
  | ChainEnd _ run_id => run_id
  | ChainError run_id => run_id
  end.


(** The host delivers the events one after the other; an exception raised
    by a callback does not stop the delivery. *)
Fixpoint run_events (es : list event) (st : State) : State :=
  match es with
  | [] => st
  | e :: es' => run_events es' (fst (handle e st))
  end.

(** What the walks of one node end hand to the sink: chunks of the run's
    entry, no message twice, each message with an identity that was not in
    the Seen-Set and is in it afterwards. *)
Record emitted_rel (meta : Meta) (st st' : State) : Prop := mk_emitted_rel {
  er_seen : self_seen st ⊆ self_seen st';
  er_ids : ∀ l x, message_id st l = Some x → message_id st' l = Some x;
  er_new : ∃ new, stream st' = stream st ++ new
    ∧ NoDup (chunk_message <$> new)
    ∧ ∀ c, c ∈ new →
        c = chunk_of meta (chunk_message c)
        ∧ (∀ x, message_id st (chunk_message c) = Some x → Some x ∉ self_seen st)
        ∧ ∃ x, message_id st' (chunk_message c) = Some x ∧ Some x ∈ self_seen st';
  er_distinct : ∀ new, stream st' = stream st ++ new →
    ∀ i j c1 c2 x,
      new !! i = Some c1 → new !! j = Some c2 →
      message_id st (chunk_message c1) = Some x →
      message_id st (chunk_message c2) = Some x → i = j;
}.

(** What a callback may do to a message object: nothing, or give an
    identifier drawn from [uuid4] to one that has none. *)
Definition msg_rel (st st' : State) : Prop :=
  ∀ l, messages st' !!! l = messages st !!! l
       ∨ (message_id st l = None
          ∧ ∃ n, messages st' !!! l
                 = mkBaseMessage (Some (uuid4 n)) (content (messages st !!! l))).

(** [later st st']: the handler gets from [st] to [st'] by callbacks and
    actions of the host, any number of them. *)
Inductive later : State → State → Prop :=
| later_refl st : later st st
| later_callback e st st' : later st st' → later st (fst (handle e st'))
| later_host st st' st'' : later st st' → host_step st' st'' → later st st''.

(** The Seen-Set holds what it held in [st0] and identities of messages
    among [S], the heap being that of [st0]. *)
Definition seeded_from (st0 : State) (S : loc → Prop) (st : State) : Prop :=
  messages st = messages st0 ∧ seqs st = seqs st0
  ∧ ∀ i, i ∈ self_seen st →
      i ∈ self_seen st0 ∨ ∃ m x, i = Some x ∧ S m ∧ message_id st0 m = Some x.

(** ** Example heaps *)

(** The identifiers drawn from [uuid4] in the examples. *)
Definition u4 (n : nat) : string := "uuid-" +:+ pretty n.

(** A run [7] registered under the namespace [["a"]] with the metadata dict
    at location 3. *)
Definition ex_registry : gmap UUID Meta := {[ 7%N := (["a"], 3) ]}.

Definition ex_dicts : gmap loc (list (string * value)) :=
  {[ 3 := [("langgraph_checkpoint_ns", VStr "a"); ("langgraph_node", VStr "N")] ]}.

(** [Command(resume=AIMessage(id="m1"))]: [update] is [None], [goto] is the
    empty tuple. *)
Definition ex_command : State :=
  mkState ex_registry ∅ []
    {[ 0 := mkBaseMessage (Some "m1") "hi" ]}
    ex_dicts
    {[ 1 := [] ]}
    {[ 0 := mkObject true
              [("PARENT", Returns (VStr "__parent__"));
               ("goto", Returns (VSeq 1));
               ("graph", Returns VNone);
               ("resume", Returns (VMessage 0));
               ("update", Returns VNone)] ]}
    0.

(** An object whose property [a] raises [ValueError] when read and whose
    field [b] holds a message; object 1 is the same without [a]; objects 2
    and 3 are the pair for a property that raises [AttributeError]. *)
Definition ex_failing_read : State :=
  mkState ex_registry ∅ []
    {[ 0 := mkBaseMessage (Some "m1") "hi" ]}
    ex_dicts
    ∅
    {[ 0 := mkObject false [("a", Raises ValueError); ("b", Returns (VMessage 0))];
       1 := mkObject false [("b", Returns (VMessage 0))];
       2 := mkObject false [("a", Raises AttributeError); ("b", Returns (VMessage 0))];
       3 := mkObject false [("b", Returns (VMessage 0))] ]}
    0.

(** The message at 0 was emitted before: its identity is in the Seen-Set. *)
Definition ex_seen : State :=
  mkState ex_registry {[ Some "m1" ]} [(["a"], "messages", (0, 3))]
    {[ 0 := mkBaseMessage (Some "m1") "hi"; 1 := mkBaseMessage (Some "m1") "hi again" ]}
    ex_dicts
    {[ 0 := [VMessage 0; VMessage 1] ]}
    ∅
    0.

(** A node's inputs [{"msg": m0, "history": [m1, "x"]}] at dict 4, with
    [m0.id = "m1"] and [m1.id = "m2"]; no run is registered. *)
Definition ex_inputs : State :=
  mkState ∅ ∅ []
    {[ 0 := mkBaseMessage (Some "m1") "hi"; 1 := mkBaseMessage (Some "m2") "there" ]}
    (<[ 4 := [("msg", VMessage 0); ("history", VSeq 0)] ]> ex_dicts)
    {[ 0 := [VMessage 1; VStr "x"] ]}
    ∅
    0.

(** Lists inside lists: 3 holds the message, 2 holds 3, 1 holds 2, 0 holds 1
    and 4 holds 0; list 9 holds itself. *)
Definition ex_nested : State :=
  mkState ex_registry ∅ []
    {[ 0 := mkBaseMessage (Some "m1") "hi" ]}
    ex_dicts
    {[ 4 := [VSeq 0]; 0 := [VSeq 1]; 1 := [VSeq 2]; 2 := [VSeq 3];
       3 := [VMessage 0]; 9 := [VSeq 9] ]}
    ∅
    0.

(** A message without identity, the run [7] registered. *)
Definition ex_token : State :=
  mkState ex_registry ∅ []
    {[ 0 := mkBaseMessage None "Hi" ]}
    ex_dicts
    ∅
    ∅
    0.

(** The heap of the scenarios: metadata dicts 1 and 3, the inputs
    [{"msg": m1}] at dict 4, the responses [{"out": m1}] at dict 5 and
    [[m2, {"x": m3}]] at list 0 (with dict 6), and a chunk message without
    identity at 0. *)
Definition ex_scenario : State :=
  mkState ∅ ∅ []
    {[ 0 := mkBaseMessage None "Hi";
       1 := mkBaseMessage (Some "m1") "one";
       2 := mkBaseMessage (Some "m2") "two";
       3 := mkBaseMessage (Some "m3") "three" ]}
    {[ 1 := [("langgraph_checkpoint_ns", VStr "a")];
       3 := [("langgraph_node", VStr "N"); ("langgraph_checkpoint_ns", VStr "b|c")];
       4 := [("msg", VMessage 1)];
       5 := [("out", VMessage 1)];
       6 := [("x", VMessage 3)] ]}
    {[ 0 := [VMessage 2; VDict 6] ]}
    ∅
    0.

(** Two runs side by side, and a response [[m0, m1]] of two messages that
    carry the same identity. *)
Definition ex_two_runs : State :=
  mkState {[ 7%N := (["a"], 3); 8%N := (["b"], 3) ]} ∅ []
    {[ 0 := mkBaseMessage (Some "m1") "hi"; 1 := mkBaseMessage (Some "m1") "hi again" ]}
    ex_dicts
    {[ 0 := [VMessage 0; VMessage 1] ]}
    ∅
    0.

(** A metadata dict without ["langgraph_checkpoint_ns"]. *)
Definition ex_no_namespace : State :=
  mkState ∅ ∅ []
    {[ 0 := mkBaseMessage (Some "m1") "hi" ]}
    {[ 3 := [("langgraph_node", VStr "N")]; 4 := [("msg", VMessage 0)] ]}
    ∅
    ∅
    0.


(** A response [[m2, m3]] of two new messages. *)
Definition ex_list : State :=
  mkState ex_registry {[ Some "m1" ]} []
    {[ 2 := mkBaseMessage (Some "m2") "two"; 3 := mkBaseMessage (Some "m3") "three" ]}
    ex_dicts
    {[ 0 := [VMessage 2; VMessage 3] ]}
    ∅
    0.

(** * Proofs *)

(** ** The extractor satisfies the recursive equation of the source *)

Lemma _process_response_eq response meta depth st :
  _process_response response meta depth st =
  match response with
  | VNone => (st, None)
  | _ =>
      if bool_decide (5 ≤ depth)%nat then (st, None)
      else visit (fun v => _process_response v meta (depth + 1)) response meta st
  end.
Proof.
  unfold _process_response.
  case_bool_decide as Hd.
  - replace (5 - depth) with 0 by lia. by destruct response.
  - destruct (5 - depth) as [|rem'] eqn:Hrem; [lia|].
    replace (5 - (depth + 1)) with rem' by lia.
    by destruct response.
Qed.

Lemma _process_response_capped response meta depth st :
  (5 ≤ depth)%nat → _process_response response meta depth st = (st, None).
Proof.
  intros Hd. rewrite _process_response_eq.
  rewrite bool_decide_eq_true_2 by done. by destruct response.
Qed.

(** ** Relations kept by every emission are kept by the whole walk *)

Section Rel.
Variable R : State → State → Prop.
Hypothesis R_refl : ∀ st, R st st.
Hypothesis R_trans : ∀ a b c, R a b → R b c → R a c.

Lemma seq_proc_rel (p q : proc) st :
  R st (fst (p st)) → (∀ st', R st' (fst (q st'))) → R st (fst ((p ;> q) st)).
Proof.
  intros Hp Hq. unfold seq_proc.
  destruct (p st) as [st' [e|]] eqn:E; simpl in *; [done|].
  eapply R_trans; [exact Hp | apply Hq].
Qed.

Lemma for_each_rel {A : Type} (xs : list A) (body : A → proc) :
  (∀ x st, R st (fst (body x st))) → ∀ st, R st (fst (for_each xs body st)).
Proof.
  intros Hbody. induction xs as [|x xs IH]; intros st; simpl; [apply R_refl|].
  apply seq_proc_rel; [apply Hbody | apply IH].
Qed.

Lemma try_except_rel (p : proc) st :
  R st (fst (p st)) → R st (fst (try_except_AttributeError p st)).
Proof.
  unfold try_except_AttributeError.
  by destruct (p st) as [st' [[]|]].
Qed.

Variable meta : Meta.
Hypothesis R_emit : ∀ message st, R st (_emit meta message true st).

Lemma visit_rel (recur : value → proc) :
  (∀ v st, R st (fst (recur v st))) →
  ∀ response st, R st (fst (visit recur response meta st)).
Proof.
  intros Hrec response st.
  destruct response as [|s|message|d|s|o]; simpl.
  - apply R_refl.
  - apply R_refl.
  - apply R_emit.
  - apply for_each_rel. intros x st'. apply Hrec.
  - by apply for_each_rel.
  - apply for_each_rel. intros [k r] st'. simpl.
    destruct (_ && _); [apply R_refl|].
    apply try_except_rel. destruct r; [apply Hrec | apply R_refl].
Qed.

Lemma process_response_rel rem :
  ∀ response st, R st (fst (process_response rem response meta st)).
Proof.
  induction rem as [|rem IH]; intros response st.
  - destruct response; apply R_refl.
  - destruct response; try apply R_refl; by apply visit_rel.
Qed.

Lemma _process_response_rel response depth st :
  R st (fst (_process_response response meta depth st)).
Proof. apply process_response_rel. Qed.
End Rel.

(** ** The emitter, field by field *)

Lemma message_id_set_id message i st l :
  message_id (set_id message i st) l =
  if decide (l = message) then i else message_id st l.
Proof.
  unfold message_id, set_id. simpl. case_decide as Hl.
  - subst l. by rewrite lookup_total_insert_eq.
  - by rewrite lookup_total_insert_ne.
Qed.

Lemma _emit_skip meta message st :
  message_id st message ∈ self_seen st → _emit meta message true st = st.
Proof. intros Hin. unfold _emit. simpl. by rewrite bool_decide_eq_true_2. Qed.

Lemma _emit_forward meta message dedupe st :
  dedupe && bool_decide (message_id st message ∈ self_seen st) = false →
  let st' := _emit meta message dedupe st in
  stream st' = stream st ++ [chunk_of meta message]
  ∧ self_seen st' = {[ emitted_id st message ]} ∪ self_seen st
  ∧ (∀ l, message_id st' l =
          if decide (l = message) then emitted_id st message else message_id st l)
  ∧ uuid_calls st' =
      match message_id st message with
      | Some _ => uuid_calls st
      | None => S (uuid_calls st)
      end
  ∧ self_metadata st' = self_metadata st
  ∧ dicts st' = dicts st ∧ seqs st' = seqs st ∧ objects st' = objects st.
Proof.
  intros Hcond. unfold _emit, emitted_id. rewrite Hcond.
  destruct (message_id st message) as [x|] eqn:Hid; simpl.
  - rewrite Hid. split_and!; try done.
    intros l. destruct (decide (l = message)) as [->|]; [exact Hid | done].
  - replace (message_id (set_uuid_calls S (set_id message (Some (uuid4 (uuid_calls st))) st))
               message) with (Some (uuid4 (uuid_calls st))).
    2:{ symmetry. etrans; [apply (message_id_set_id message _ st message)|].
        by rewrite decide_True. }
    split_and!; try done.
    intros l. apply (message_id_set_id message _ st l).
Qed.

Lemma _emit_cases meta message dedupe st :
  (dedupe = true ∧ message_id st message ∈ self_seen st
   ∧ _emit meta message dedupe st = st)
  ∨ dedupe && bool_decide (message_id st message ∈ self_seen st) = false.
Proof.
  destruct (dedupe && bool_decide (message_id st message ∈ self_seen st)) eqn:E; [|by right].
  left. apply andb_true_iff in E as [-> Hin]. apply bool_decide_eq_true in Hin.
  split_and!; [done..|]. by apply _emit_skip.
Qed.

(** ** One walk of the extractor *)

Lemma walk_rel_refl st : walk_rel st st.
Proof.
  split; try done. exists []. split; [by rewrite app_nil_r|].
  intros c Hc. by apply elem_of_nil in Hc.
Qed.

Lemma walk_rel_trans a b c : walk_rel a b → walk_rel b c → walk_rel a c.
Proof.
  intros [Hm1 Hd1 Hs1 Ho1 Hseen1 Hn1 Hid1 (new1 & Hst1 & Hnew1)]
         [Hm2 Hd2 Hs2 Ho2 Hseen2 Hn2 Hid2 (new2 & Hst2 & Hnew2)].
  split.
  - congruence.
  - congruence.
  - congruence.
  - congruence.
  - by etrans.
  - auto.
  - auto.
  - exists (new1 ++ new2). split; [by rewrite Hst2, Hst1, app_assoc|].
    intros ch Hch x Hx. apply elem_of_app in Hch as [Hch|Hch]; [by eapply Hnew1|].
    intros Hin. eapply (Hnew2 ch Hch x); [by apply Hid1 | by apply Hseen1].
Qed.

Lemma walk_rel_emit meta message st : walk_rel st (_emit meta message true st).
Proof.
  destruct (_emit_cases meta message true st) as [(_ & _ & ->)|Hcond];
    [apply walk_rel_refl|].
  pose proof (_emit_forward meta message true st Hcond)
    as (Hst & Hseen & Hid & _ & Hm & Hd & Hs & Ho).
  simpl in Hcond. apply bool_decide_eq_false in Hcond.
  split; try done.
  - rewrite Hseen. apply union_subseteq_r.
  - rewrite Hseen. intros Hn [Hin|Hin]%elem_of_union; [|done].
    apply elem_of_singleton in Hin. unfold emitted_id in Hin.
    by destruct (message_id st message).
  - intros l x Hl. rewrite Hid. case_decide as E; [|done].
    subst l. unfold emitted_id. by rewrite Hl.
  - exists [chunk_of meta message]. split; [done|].
    intros c Hc x Hx. apply list_elem_of_singleton in Hc as ->.
    change (message_id st message = Some x) in Hx. by rewrite Hx in Hcond.
Qed.

Lemma _process_response_walk response meta depth st :
  walk_rel st (fst (_process_response response meta depth st)).
Proof.
  apply _process_response_rel;
    [apply walk_rel_refl | apply walk_rel_trans | apply walk_rel_emit].
Qed.

(** ** Loops *)

Lemma seq_proc_ret_r (p : proc) st : (p ;> ret) st = p st.
Proof. unfold seq_proc, ret. by destruct (p st) as [st' [e|]]. Qed.

Lemma for_each_app {A : Type} (xs ys : list A) (body : A → proc) st :
  for_each (xs ++ ys) body st = (for_each xs body ;> for_each ys body) st.
Proof.
  revert st. induction xs as [|x xs IH]; intros st; simpl; [done|].
  unfold seq_proc. destruct (body x st) as [st' [e|]]; [done|].
  rewrite IH. done.
Qed.

Lemma for_each_singleton {A : Type} (x : A) (body : A → proc) st :
  for_each [x] body st = body x st.
Proof. simpl. apply seq_proc_ret_r. Qed.

(** ** Depth *)

Lemma _process_response_nested meta st n v r :
  nested st n v r → ∀ depth,
  _process_response v meta depth st =
  if bool_decide (5 ≤ depth + n)%nat then (st, None)
  else _process_response r meta (depth + n) st.
Proof.
  induction 1 as [v|n s v r Hs Hn IH|n d k v r Hd Hn IH]; intros depth.
  - rewrite Nat.add_0_r. case_bool_decide; [by apply _process_response_capped|done].
  - destruct (decide (5 ≤ depth)%nat) as [Hcap|Hcap].
    + rewrite _process_response_capped by done.
      by rewrite bool_decide_eq_true_2 by lia.
    + rewrite _process_response_eq, bool_decide_eq_false_2 by done.
      simpl. rewrite Hs, for_each_singleton, IH.
      replace (depth + 1 + n) with (depth + S n) by lia. done.
  - destruct (decide (5 ≤ depth)%nat) as [Hcap|Hcap].
    + rewrite _process_response_capped by done.
      by rewrite bool_decide_eq_true_2 by lia.
    + rewrite _process_response_eq, bool_decide_eq_false_2 by done.
      simpl. rewrite Hd, for_each_singleton, IH. simpl.
      replace (depth + 1 + n) with (depth + S n) by lia. done.
Qed.

Lemma nested_frame st st' n v r :
  dicts st' = dicts st → seqs st' = seqs st → nested st n v r → nested st' n v r.
Proof.
  intros Hd Hs. induction 1 as [v|n s v r Hv _ IH|n d k v r Hv _ IH].
  - apply nested_here.
  - apply (nested_seq st' n s v r); [by rewrite Hs | exact IH].
  - apply (nested_dict st' n d k v r); [by rewrite Hd | exact IH].
Qed.

(** C6. The node-end handler starts the extractor at depth 0; at depth 5 or
    more the extractor returns at once and leaves the state as it is; a
    message inside at most 4 containers is handed to the emitter, anything
    inside 5 or more is not looked at; a sequence that contains itself is
    walked down to the cap and no further. *)
Theorem C6_depth_cap :
  (∀ response run_id meta st,
     self_metadata st !! run_id = Some meta →
     on_chain_end response run_id st =
     _process_response response meta 0 (set_self_metadata (delete run_id) st))
  ∧ (∀ response meta depth st,
       (5 ≤ depth)%nat → _process_response response meta depth st = (st, None))
  ∧ (∀ response meta st n message,
       nested st n response (VMessage message) → (n ≤ 4)%nat →
       _process_response response meta 0 st = (_emit meta message true st, None))
  ∧ (∀ response meta st n r,
       nested st n response r → (5 ≤ n)%nat →
       _process_response response meta 0 st = (st, None))
  ∧ (∀ meta st s,
       seqs st !!! s = [VSeq s] →
       _process_response (VSeq s) meta 0 st = (st, None)).
Proof.
  split_and!.
  - intros response run_id meta st Hreg. unfold on_chain_end. by rewrite Hreg.
  - apply _process_response_capped.
  - intros response meta st n message Hn Hle.
    rewrite (_process_response_nested meta st n _ _ Hn 0). simpl.
    rewrite bool_decide_eq_false_2 by lia.
    rewrite _process_response_eq. by rewrite bool_decide_eq_false_2 by lia.
  - intros response meta st n r Hn Hle.
    rewrite (_process_response_nested meta st n _ _ Hn 0). simpl.
    by rewrite bool_decide_eq_true_2 by lia.
  - intros meta st s Hs.
    assert (Hstep : ∀ depth, (depth < 5)%nat →
              _process_response (VSeq s) meta depth st =
              _process_response (VSeq s) meta (depth + 1) st).
    { intros depth Hd. rewrite _process_response_eq at 1.
      rewrite bool_decide_eq_false_2 by lia. simpl.
      by rewrite Hs, for_each_singleton. }
    rewrite !Hstep by lia. simpl. by apply _process_response_capped.
Qed.

(** ** Field reads that fail *)

(** The body of the loop over [dir(response)]. *)
Lemma visit_object (recur : value → proc) o meta st :
  visit recur (VObject o) meta st =
  for_each (attrs (objects st !!! o)) (fun kv =>
    if startswith (fst kv) "__" && endswith (fst kv) "__" then ret
    else try_except_AttributeError
           match snd kv with
           | Returns v => recur v
           | Raises e => raise e
           end) st.
Proof. done. Qed.

(** C2 (amended). A field whose read raises AttributeError is skipped: the
    walk of the object is the walk of the same object without that field,
    so nothing is propagated and the remaining fields are visited.  A read
    that raises any other exception, on a name that is not a dunder name,
    ends the walk: once the fields before it are done the exception goes to
    the caller. *)
Theorem C2_failed_read :
  (∀ meta depth st o o' pre key post,
     attrs (objects st !!! o) = pre ++ (key, Raises AttributeError) :: post →
     attrs (objects st !!! o') = pre ++ post →
     _process_response (VObject o) meta depth st =
     _process_response (VObject o') meta depth st)
  ∧ (∀ meta depth st st' o o' pre key e post,
       (depth < 5)%nat →
       attrs (objects st !!! o) = pre ++ (key, Raises e) :: post →
       attrs (objects st !!! o') = pre →
       e ≠ AttributeError →
       startswith key "__" && endswith key "__" = false →
       _process_response (VObject o') meta depth st = (st', None) →
       _process_response (VObject o) meta depth st = (st', Some e)).
Proof.
  split.
  - intros meta depth st o o' pre key post Ho Ho'.
    rewrite !_process_response_eq. case_bool_decide; [done|].
    rewrite !visit_object, Ho, Ho', !for_each_app.
    unfold seq_proc.
    destruct (for_each pre _ st) as [st1 [e|]]; [done|].
    simpl. unfold seq_proc at 1. simpl.
    by destruct (startswith key "__" && endswith key "__").
  - intros meta depth st st' o o' pre key e post Hd Ho Ho' He Hkey.
    rewrite !_process_response_eq, !bool_decide_eq_false_2 by lia.
    rewrite !visit_object, Ho, Ho', for_each_app.
    intros Hpre. unfold seq_proc at 1. rewrite Hpre.
    simpl. unfold seq_proc at 1. simpl. rewrite Hkey.
    unfold try_except_AttributeError, raise. by destruct e.
Qed.

(** Whether an object is a [Command] plays no part in its walk: two objects
    with the same [dir()] listing are walked alike. *)
Lemma _process_response_object meta depth st o o' :
  attrs (objects st !!! o) = attrs (objects st !!! o') →
  _process_response (VObject o) meta depth st
  = _process_response (VObject o') meta depth st.
Proof.
  intros Hattrs. rewrite !_process_response_eq. case_bool_decide; [done|].
  by rewrite !visit_object, Hattrs.
Qed.

(** ** Dedupe at node end *)

Lemma on_chain_end_walk response run_id st :
  walk_rel (set_self_metadata (delete run_id) st) (fst (on_chain_end response run_id st)).
Proof.
  unfold on_chain_end. destruct (self_metadata st !! run_id) as [meta|].
  - apply _process_response_walk.
  - apply walk_rel_refl.
Qed.

(** What a node end leaves of a message whose identity is in the Seen-Set. *)
Lemma on_chain_end_seen response run_id st l x :
  message_id st l = Some x → Some x ∈ self_seen st →
  let st' := fst (on_chain_end response run_id st) in
  message_id st' l = Some x ∧ Some x ∈ self_seen st'
  ∧ ∃ new, stream st' = stream st ++ new ∧ ∀ c, c ∈ new → chunk_message c ≠ l.
Proof.
  intros Hid Hin st'.
  destruct (on_chain_end_walk response run_id st)
    as [_ _ _ _ Hseen _ Hids (new & Hst & Hnew)].
  split_and!.
  - by apply Hids.
  - by apply Hseen.
  - exists new. split; [done|]. intros c Hc <-. by apply (Hnew c Hc x).
Qed.

(** C3. A message whose identity X is in the Seen-Set is skipped by the
    emitter with dedupe on, the state being left as it is; so whatever the
    response of a node end, no chunk for that message is handed to the
    sink, the message keeps its identity and X stays in the Seen-Set. *)
Theorem C3_dedup_on_completion response run_id st l x :
  message_id st l = Some x → Some x ∈ self_seen st →
  (∀ meta, _emit meta l true st = st)
  ∧ let st' := fst (on_chain_end response run_id st) in
    message_id st' l = Some x ∧ Some x ∈ self_seen st'
    ∧ ∃ new, stream st' = stream st ++ new ∧ ∀ c, c ∈ new → chunk_message c ≠ l.
Proof.
  intros Hid Hin. split.
  - intros meta. apply _emit_skip. by rewrite Hid.
  - by apply on_chain_end_seen.
Qed.

(** ** Removal from the registry *)

Lemma pop_absent run_id st :
  self_metadata st !! run_id = None → set_self_metadata (delete run_id) st = st.
Proof.
  intros Habs. destruct st as [reg seen out msgs ds ss os n]. unfold set_self_metadata.
  simpl in *. by rewrite delete_id.
Qed.

Lemma on_chain_end_absent response run_id st :
  self_metadata st !! run_id = None → on_chain_end response run_id st = (st, None).
Proof.
  intros Habs. unfold on_chain_end. rewrite Habs. unfold ret. by rewrite pop_absent.
Qed.

Lemma on_llm_new_token_absent chunk run_id tags st :
  self_metadata st !! run_id = None → on_llm_new_token chunk run_id tags st = (st, None).
Proof. intros Habs. unfold on_llm_new_token. destruct chunk; try done. by rewrite Habs. Qed.

(** C9. The model-end, model-error and node-error handlers delete the run's
    entry and touch nothing else: the sink gets no chunk, the Seen-Set and
    the heap stay as they are, no exception is raised.  For a run
    identifier that has no entry these handlers, and the node-end handler
    with any response, return the state they were given. *)
Theorem C9_removal :
  (∀ run_id st,
     on_llm_end run_id st = (set_self_metadata (delete run_id) st, None)
     ∧ on_llm_error run_id st = (set_self_metadata (delete run_id) st, None)
     ∧ on_chain_error run_id st = (set_self_metadata (delete run_id) st, None)
     ∧ self_metadata (set_self_metadata (delete run_id) st) !! run_id = None
     ∧ stream (set_self_metadata (delete run_id) st) = stream st
     ∧ self_seen (set_self_metadata (delete run_id) st) = self_seen st)
  ∧ (∀ run_id st,
       self_metadata st !! run_id = None →
       on_llm_end run_id st = (st, None)
       ∧ on_llm_error run_id st = (st, None)
       ∧ on_chain_error run_id st = (st, None)
       ∧ ∀ response, on_chain_end response run_id st = (st, None)).
Proof.
  split.
  - intros run_id st. split_and!; try done. simpl. apply lookup_delete_eq.
  - intros run_id st Habs.
    unfold on_llm_end, on_llm_error, on_chain_error, ret.
    rewrite pop_absent by done. split_and!; try done.
    intros response. by apply on_chain_end_absent.
Qed.

(** ** Tag gating *)

Lemma not_tagged_elem tag ts : tag ∈ ts → not_tagged tag (Some ts) = false.
Proof.
  intros Hin. unfold not_tagged. destruct ts as [|t ts]; [by apply elem_of_nil in Hin|].
  by rewrite bool_decide_eq_true_2.
Qed.

(** C7. A model start whose tags contain TAG_NOSTREAM returns the state it
    was given: the run is not registered, and as long as the run has no
    entry every new-token event for it is a no-op.  A node start whose tags
    contain TAG_HIDDEN returns the state it was given as well (no entry, no
    seeding), and the node end of a run without entry is a no-op. *)
Theorem C7_tag_gating :
  (∀ run_id ts metadata st,
     TAG_NOSTREAM ∈ ts →
     on_chat_model_start run_id (Some ts) metadata st = (st, None)
     ∧ ∀ st', self_metadata st' !! run_id = None →
         ∀ chunk tags, on_llm_new_token chunk run_id tags st' = (st', None))
  ∧ (∀ inputs run_id ts metadata name st,
       TAG_HIDDEN ∈ ts →
       on_chain_start inputs run_id (Some ts) metadata name st = (st, None)
       ∧ ∀ st', self_metadata st' !! run_id = None →
           ∀ response, on_chain_end response run_id st' = (st', None)).
Proof.
  split.
  - intros run_id ts metadata st Hin. split.
    + unfold on_chat_model_start. destruct metadata as [d|]; [|done].
      by rewrite (not_tagged_elem _ _ Hin), andb_false_r.
    + intros st' Habs chunk tags. by apply on_llm_new_token_absent.
  - intros inputs run_id ts metadata name st Hin. split.
    + unfold on_chain_start. destruct metadata as [d|]; [|done].
      by rewrite (not_tagged_elem _ _ Hin), andb_false_r.
    + intros st' Habs response. by apply on_chain_end_absent.
Qed.

(** ** Tokens *)

Lemma on_llm_new_token_registered message run_id tags meta st :
  self_metadata st !! run_id = Some meta →
  ∃ st1, on_llm_new_token (ChatGenerationChunk message) run_id tags st
         = (_emit meta message false st1, None)
    ∧ stream st1 = stream st ∧ self_seen st1 = self_seen st
    ∧ self_metadata st1 = self_metadata st ∧ messages st1 = messages st
    ∧ uuid_calls st1 = uuid_calls st.
Proof.
  intros Hreg. unfold on_llm_new_token. rewrite Hreg.
  destruct (List.filter _ _) as [|t ts]; eexists; (split; [reflexivity|done]).
Qed.

(** C4. For a registered run a new-token event with a chat generation chunk
    always hands the chunk's message to the sink, whatever the Seen-Set
    holds, and the identity the message then carries is in the Seen-Set;
    the run stays registered, so the next token event for the run emits
    again, be it the same message or another one of the same identity,
    whatever objects the host has created in between. *)
Theorem C4_no_dedup_on_tokens run_id meta message tags st :
  self_metadata st !! run_id = Some meta →
  let r := on_llm_new_token (ChatGenerationChunk message) run_id tags st in
  snd r = None
  ∧ stream (fst r) = stream st ++ [chunk_of meta message]
  ∧ message_id (fst r) message = emitted_id st message
  ∧ message_id (fst r) message ∈ self_seen (fst r)
  ∧ self_metadata (fst r) !! run_id = Some meta
  ∧ ∀ st1 message2 tags2,
      host_step (fst r) st1 →
      stream (fst (on_llm_new_token (ChatGenerationChunk message2) run_id tags2 st1))
      = stream st ++ [chunk_of meta message; chunk_of meta message2].
Proof.
  intros Hreg r.
  destruct (on_llm_new_token_registered message run_id tags meta st Hreg)
    as (st1 & Hr & Hst1 & Hseen1 & Hm1 & Hmsg1 & Hu1).
  pose proof (_emit_forward meta message false st1 eq_refl)
    as (Hst & Hseen & Hid & _ & Hm & _).
  assert (Hreg' : self_metadata (fst r) !! run_id = Some meta).
  { subst r. rewrite Hr. cbn [fst snd]. by rewrite Hm, Hm1. }
  assert (Hstream : stream (fst r) = stream st ++ [chunk_of meta message]).
  { subst r. rewrite Hr. cbn [fst snd]. by rewrite Hst, Hst1. }
  assert (Hem : emitted_id st1 message = emitted_id st message).
  { unfold emitted_id, message_id. by rewrite Hmsg1, Hu1. }
  split_and!.
  - subst r. by rewrite Hr.
  - done.
  - subst r. rewrite Hr. cbn [fst snd]. rewrite Hid, decide_True by done. done.
  - subst r. rewrite Hr. cbn [fst snd]. rewrite Hid, decide_True by done.
    rewrite Hseen. apply elem_of_union_l. by apply elem_of_singleton.
  - done.
  - intros st2 message2 tags2 (Hreg2 & _ & Hstream2 & _).
    rewrite <- Hreg2 in Hreg'.
    destruct (on_llm_new_token_registered message2 run_id tags2 meta st2 Hreg')
      as (st3 & Hr3 & Hst3 & _).
    pose proof (_emit_forward meta message2 false st3 eq_refl) as (Hst' & _).
    rewrite Hr3. cbn [fst snd]. rewrite Hst', Hst3, Hstream2, Hstream.
    by rewrite <- app_assoc.
Qed.

(** ** Seeding from the inputs of a node *)

Section Post.
Context {A : Type} (R : State → State → Prop) (Q : A → State → Prop).
Variable body : A → proc.
Hypothesis R_refl : ∀ st, R st st.
Hypothesis R_trans : ∀ a b c, R a b → R b c → R a c.
Hypothesis body_R : ∀ x st, R st (fst (body x st)).
Hypothesis body_ok : ∀ x st, snd (body x st) = None.
Hypothesis body_Q : ∀ x st, Q x (fst (body x st)).
Hypothesis Q_R : ∀ x a b, Q x a → R a b → Q x b.

Lemma for_each_ok xs st : snd (for_each xs body st) = None.
Proof.
  revert st. induction xs as [|x xs IH]; intros st; simpl; [done|].
  unfold seq_proc. pose proof (body_ok x st) as Hok.
  destruct (body x st) as [st' [e|]]; [done|]. apply IH.
Qed.

Lemma for_each_post xs st x : x ∈ xs → Q x (fst (for_each xs body st)).
Proof.
  revert st. induction xs as [|y xs IH]; intros st Hin; [by apply elem_of_nil in Hin|].
  simpl. unfold seq_proc.
  pose proof (body_ok y st) as Hok. pose proof (body_Q y st) as HQ.
  destruct (body y st) as [st' [e|]]; [done|]. simpl in HQ.
  apply elem_of_cons in Hin as [->|Hin]; [|by apply IH].
  eapply Q_R; [exact HQ|]. by apply for_each_rel.
Qed.
End Post.

Lemma seed_rel_refl st : seed_rel st st.
Proof. split; try done. intros i Hi. by left. Qed.

Lemma seed_rel_trans a b c : seed_rel a b → seed_rel b c → seed_rel a c.
Proof.
  intros [Hm1 Hst1 Hmsg1 Hd1 Hs1 Ho1 Hu1 Hseen1 Hnew1]
         [Hm2 Hst2 Hmsg2 Hd2 Hs2 Ho2 Hu2 Hseen2 Hnew2].
  split; try congruence.
  - by etrans.
  - intros i Hi. destruct (Hnew2 i Hi) as [Hb|(l & x & -> & Hl)]; [by apply Hnew1|].
    right. exists l, x. split; [done|]. unfold message_id in *. by rewrite <- Hmsg1.
Qed.

Lemma seed_message_rel message st : seed_rel st (fst (seed_message message st)).
Proof.
  unfold seed_message. destruct (message_id st message) as [x|] eqn:Hid;
    [|apply seed_rel_refl].
  split; try done; simpl.
  - apply union_subseteq_r.
  - intros i [Hi|Hi]%elem_of_union; [|by left].
    apply elem_of_singleton in Hi as ->. right. by exists message, x.
Qed.

Lemma seed_message_ok message st : snd (seed_message message st) = None.
Proof. unfold seed_message. by destruct (message_id st message). Qed.

Lemma seed_item_rel item st : seed_rel st (fst (seed_item item st)).
Proof. destruct item; try apply seed_rel_refl. apply seed_message_rel. Qed.

Lemma seed_item_ok item st : snd (seed_item item st) = None.
Proof. destruct item; try done. apply seed_message_ok. Qed.

Lemma seed_entry_rel kv st : seed_rel st (fst (seed_entry kv st)).
Proof.
  unfold seed_entry. destruct (snd kv); try apply seed_rel_refl.
  - apply seed_message_rel.
  - apply for_each_rel;
      [apply seed_rel_refl | apply seed_rel_trans | apply seed_item_rel].
Qed.

Lemma seed_entry_ok kv st : snd (seed_entry kv st) = None.
Proof.
  unfold seed_entry. destruct (snd kv); try done.
  - apply seed_message_ok.
  - apply for_each_ok, seed_item_ok.
Qed.

Lemma seed_inputs_rel inputs st : seed_rel st (fst (seed_inputs inputs st)).
Proof.
  unfold seed_inputs. destruct inputs; try apply seed_rel_refl.
  apply for_each_rel;
    [apply seed_rel_refl | apply seed_rel_trans | apply seed_entry_rel].
Qed.

Lemma seed_inputs_ok inputs st : snd (seed_inputs inputs st) = None.
Proof. unfold seed_inputs. destruct inputs; try done. apply for_each_ok, seed_entry_ok. Qed.

(** A message counts as seeded in a state when its identity, if it has one,
    is in the Seen-Set. *)
Lemma seeded_stable message a b :
  (∀ x, message_id a message = Some x → Some x ∈ self_seen a) →
  seed_rel a b →
  ∀ x, message_id b message = Some x → Some x ∈ self_seen b.
Proof.
  intros Ha Hab x Hx. apply (seed_seen _ _ Hab), Ha.
  unfold message_id in *. by rewrite <- (seed_messages _ _ Hab).
Qed.

Lemma seed_message_seeds message st x :
  message_id (fst (seed_message message st)) message = Some x →
  Some x ∈ self_seen (fst (seed_message message st)).
Proof.
  unfold seed_message. destruct (message_id st message) as [y|] eqn:Hid; simpl.
  - change (message_id st message = Some x → Some x ∈ {[Some y]} ∪ self_seen st).
    rewrite Hid. intros [= ->]. apply elem_of_union_l. by apply elem_of_singleton.
  - by rewrite Hid.
Qed.

Lemma seed_item_seeds item st message x :
  item = VMessage message →
  message_id (fst (seed_item item st)) message = Some x →
  Some x ∈ self_seen (fst (seed_item item st)).
Proof. intros ->. apply seed_message_seeds. Qed.

Lemma seed_entry_seeds kv st message :
  (snd kv = VMessage message
   ∨ ∃ s, snd kv = VSeq s ∧ VMessage message ∈ seqs st !!! s) →
  ∀ x, message_id (fst (seed_entry kv st)) message = Some x →
       Some x ∈ self_seen (fst (seed_entry kv st)).
Proof.
  unfold seed_entry. intros [->|(s & -> & Hin)] x.
  - apply seed_message_seeds.
  - intros Hx.
    assert (HP : ∀ m y, VMessage message = VMessage m →
              message_id (fst (for_each (seqs st !!! s) seed_item st)) m = Some y →
              Some y ∈ self_seen (fst (for_each (seqs st !!! s) seed_item st))).
    { apply (for_each_post seed_rel
               (fun item st' => ∀ m y, item = VMessage m →
                  message_id st' m = Some y → Some y ∈ self_seen st')
               seed_item seed_rel_refl seed_rel_trans seed_item_rel seed_item_ok);
        [| |done].
      - intros item st' m y. apply seed_item_seeds.
      - intros item a b Ha Hab m y ->.
        apply (seeded_stable m a b); [intros z; by apply Ha | done]. }
    by apply (HP message x).
Qed.

Lemma seed_inputs_seeds inputs st message x :
  input_message st inputs message →
  message_id st message = Some x →
  Some x ∈ self_seen (fst (seed_inputs inputs st)).
Proof.
  intros (d & k & v & -> & Hkv & Hv) Hid. simpl.
  pose proof (for_each_rel seed_rel seed_rel_refl seed_rel_trans
                (dicts st !!! d) seed_entry seed_entry_rel st) as Hrel.
  assert (HP :
    (snd (k, v) = VMessage message
     ∨ ∃ s, snd (k, v) = VSeq s
            ∧ VMessage message ∈ seqs (fst (for_each (dicts st !!! d) seed_entry st)) !!! s) →
    ∀ y, message_id (fst (for_each (dicts st !!! d) seed_entry st)) message = Some y →
         Some y ∈ self_seen (fst (for_each (dicts st !!! d) seed_entry st))).
  { apply (for_each_post seed_rel
             (fun kv st' =>
                (snd kv = VMessage message
                 ∨ ∃ s, snd kv = VSeq s ∧ VMessage message ∈ seqs st' !!! s) →
                ∀ y, message_id st' message = Some y → Some y ∈ self_seen st')
             seed_entry seed_rel_refl seed_rel_trans seed_entry_rel seed_entry_ok);
      [| |done].
    - intros kv st' Hkv'. apply seed_entry_seeds.
      destruct Hkv' as [?|(s & ? & Hin)]; [by left|]. right. exists s. split; [done|].
      by rewrite <- (seed_seqs _ _ (seed_entry_rel kv st')).
    - intros kv a b Ha Hab Hkv'. apply (seeded_stable message a b); [|done].
      apply Ha. destruct Hkv' as [?|(s & ? & Hin)]; [by left|]. right. exists s.
      split; [done|]. by rewrite <- (seed_seqs _ _ Hab). }
  apply HP.
  - simpl. destruct Hv as [?|(s & ? & Hin)]; [by left|]. right. exists s.
    split; [done|]. by rewrite (seed_seqs _ _ Hrel).
  - unfold message_id in *. by rewrite (seed_messages _ _ Hrel).
Qed.

Lemma register_ok run_id d ns st :
  checkpoint_ns st d = inr ns →
  register run_id d st = (set_self_metadata (<[run_id := (ns, d)]>) st, None).
Proof. intros Hns. unfold register. by rewrite Hns. Qed.

Lemma on_chain_end_removes response run_id st :
  self_metadata (fst (on_chain_end response run_id st)) !! run_id = None.
Proof.
  rewrite (walk_metadata _ _ (on_chain_end_walk response run_id st)).
  simpl. apply lookup_delete_eq.
Qed.

(** C5. A node start that registers its run records the identity of every
    input message that has one, be the message a value of the inputs or an
    element of a sequence among them.  At the node end that follows, a
    message of the response that carries a seeded identity gets no chunk,
    and the run's entry is removed all the same; the host may have created
    and changed objects in between. *)
Theorem C5_input_seeding inputs run_id tags d name ns st :
  truthy_dict st (Some d) = true →
  name_eq name (assoc "langgraph_node" (dicts st !!! d)) = true →
  not_tagged TAG_HIDDEN tags = true →
  checkpoint_ns st d = inr ns →
  let r := on_chain_start inputs run_id tags (Some d) name st in
  snd r = None
  ∧ self_metadata (fst r) !! run_id = Some (ns, d)
  ∧ ∀ seeded x,
      input_message st inputs seeded → message_id st seeded = Some x →
      Some x ∈ self_seen (fst r)
      ∧ ∀ st1 response message,
          host_step (fst r) st1 →
          message_id st1 message = Some x →
          let st2 := fst (on_chain_end response run_id st1) in
          (∃ new, stream st2 = stream st1 ++ new
                  ∧ ∀ c, c ∈ new → chunk_message c ≠ message)
          ∧ self_metadata st2 !! run_id = None.
Proof.
  intros Hmd Hname Htag Hns r.
  assert (Hr : r = seed_inputs inputs (set_self_metadata (<[run_id := (ns, d)]>) st)).
  { subst r. unfold on_chain_start. rewrite Hmd, Hname, Htag. simpl.
    unfold seq_proc. by rewrite (register_ok run_id d ns st Hns). }
  pose proof (seed_inputs_rel inputs (set_self_metadata (<[run_id := (ns, d)]>) st))
    as Hrel.
  rewrite <- Hr in Hrel.
  split_and!.
  - rewrite Hr. apply seed_inputs_ok.
  - rewrite (seed_metadata _ _ Hrel). simpl. apply lookup_insert_eq.
  - intros seeded x Hin Hid.
    assert (Hseen : Some x ∈ self_seen (fst r)).
    { rewrite Hr. apply (seed_inputs_seeds inputs _ seeded x); [exact Hin | exact Hid]. }
    split; [done|]. intros st1 response message (_ & Hseen1 & _) Hmsg st2. split.
    + rewrite <- Hseen1 in Hseen.
      by destruct (on_chain_end_seen response run_id st1 message x Hmsg Hseen)
        as (_ & _ & Hnew).
    + apply on_chain_end_removes.
Qed.

(** ** Identities over a whole run of the handler *)

Lemma grow_frame st st' :
  self_seen st' = self_seen st → messages st' = messages st →
  uuid_calls st' = uuid_calls st → grow st st'.
Proof.
  intros Hseen Hmsg Hu. split.
  - lia.
  - intros l. left. unfold message_id. by rewrite Hmsg.
  - intros i Hi. left. by rewrite <- Hseen.
Qed.

Lemma grow_refl st : grow st st.
Proof. by apply grow_frame. Qed.

Lemma grow_trans a b c : grow a b → grow b c → grow a c.
Proof.
  intros [Hu1 Hid1 Hs1] [Hu2 Hid2 Hs2]. split.
  - lia.
  - intros l. destruct (Hid2 l) as [Heq|(n & Hn & Heq)].
    + rewrite Heq. destruct (Hid1 l) as [?|(n & Hn & ?)]; [by left|].
      right. exists n. split; [lia|done].
    + right. exists n. split; [lia|done].
  - intros i Hi. destruct (Hs2 i Hi) as [Hb|[(l & x & -> & Hl)|(n & Hn & ->)]].
    + destruct (Hs1 i Hb) as [?|[?|(n & Hn & ->)]]; [by left|by right; left|].
      right; right. exists n. split; [lia|done].
    + destruct (Hid1 l) as [Heq|(n & Hn & Heq)].
      * right; left. exists l, x. split; [done|]. by rewrite <- Heq.
      * right; right. exists n. split; [lia|]. by rewrite <- Hl, Heq.
    + right; right. exists n. split; [lia|done].
Qed.

Lemma _emit_grow meta message dedupe st : grow st (_emit meta message dedupe st).
Proof.
  destruct (_emit_cases meta message dedupe st) as [(_ & _ & ->)|Hcond];
    [apply grow_refl|].
  pose proof (_emit_forward meta message dedupe st Hcond)
    as (_ & Hseen & Hid & Hu & _).
  unfold emitted_id in *.
  destruct (message_id st message) as [x|] eqn:Hmsg.
  - split.
    + lia.
    + intros l. left. rewrite Hid.
      destruct (decide (l = message)) as [->|]; [by rewrite Hmsg | done].
    + intros i. rewrite Hseen. intros [Hi|Hi]%elem_of_union; [|by left].
      apply elem_of_singleton in Hi as ->. right; left. by exists message, x.
  - split.
    + lia.
    + intros l. rewrite Hid. destruct (decide (l = message)) as [->|]; [|by left].
      right. exists (uuid_calls st). split; [lia|done].
    + intros i. rewrite Hseen. intros [Hi|Hi]%elem_of_union; [|by left].
      apply elem_of_singleton in Hi as ->. right; right.
      exists (uuid_calls st). split; [lia|done].
Qed.

Lemma seed_rel_grow st st' : seed_rel st st' → grow st st'.
Proof.
  intros [_ _ Hmsg _ _ _ Hu _ Hnew]. split.
  - lia.
  - intros l. left. unfold message_id. by rewrite Hmsg.
  - intros i Hi. destruct (Hnew i Hi) as [?|?]; [by left|by right; left].
Qed.

Lemma register_grow run_id d st : grow st (fst (register run_id d st)).
Proof. unfold register. destruct (checkpoint_ns st d); by apply grow_frame. Qed.

Lemma handle_grow e st : grow st (fst (handle e st)).
Proof.
  destruct e as [run_id tags metadata|chunk run_id tags|run_id|run_id
                |inputs run_id tags metadata name|response run_id|run_id]; simpl.
  - unfold on_chat_model_start. destruct metadata as [d|]; [|apply grow_refl].
    destruct (_ && _); [apply register_grow|apply grow_refl].
  - unfold on_llm_new_token. destruct chunk as [|text|message]; try apply grow_refl.
    destruct (self_metadata st !! run_id) as [meta|]; [|apply grow_refl].
    simpl. eapply grow_trans; [|apply _emit_grow].
    destruct (List.filter _ _); by apply grow_frame.
  - by apply grow_frame.
  - by apply grow_frame.
  - unfold on_chain_start. destruct metadata as [d|]; [|apply grow_refl].
    destruct (_ && _); [|apply grow_refl].
    apply (seq_proc_rel grow grow_trans); [apply register_grow|].
    intros st'. apply seed_rel_grow, seed_inputs_rel.
  - unfold on_chain_end.
    destruct (self_metadata st !! run_id) as [meta|]; [|by apply grow_frame].
    eapply grow_trans; [by apply (grow_frame st (set_self_metadata (delete run_id) st))|].
    apply _process_response_rel; [apply grow_refl|apply grow_trans|].
    intros message st'. apply _emit_grow.
  - by apply grow_frame.
Qed.

Lemma grow_seen_None st st' : grow st st' → None ∉ self_seen st → None ∉ self_seen st'.
Proof.
  intros [_ _ Hs] Hn Hin.
  by destruct (Hs None Hin) as [?|[(l & x & ? & _)|(n & _ & ?)]].
Qed.

Lemma reachable_seen_None st : reachable st → None ∉ self_seen st.
Proof.
  induction 1 as [st _|e st _ IH|meta message dedupe st _ IH|st st' _ IH (_ & Hseen & _) _].
  - simpl. apply not_elem_of_empty.
  - exact (grow_seen_None st _ (handle_grow e st) IH).
  - exact (grow_seen_None st _ (_emit_grow meta message dedupe st) IH).
  - by rewrite Hseen.
Qed.

(** C10. In no state the handler reaches does the Seen-Set hold the null
    identity.  So a message without identity is never skipped by dedupe:
    the emitter, dedupe on, hands it to the sink under the identifier drawn
    from uuid4 and records that identifier, and a node end whose response
    holds such a message, inside at most 4 containers, emits it. *)
Theorem C10_seen_never_null :
  (∀ st, reachable st → None ∉ self_seen st)
  ∧ (∀ st meta message,
       reachable st → message_id st message = None →
       let st' := _emit meta message true st in
       stream st' = stream st ++ [chunk_of meta message]
       ∧ message_id st' message = Some (uuid4 (uuid_calls st))
       ∧ Some (uuid4 (uuid_calls st)) ∈ self_seen st'
       ∧ (None ∉ self_seen st'))
  ∧ (∀ st run_id meta response n message,
       reachable st → self_metadata st !! run_id = Some meta →
       nested st n response (VMessage message) → (n ≤ 4)%nat →
       message_id st message = None →
       let st' := fst (on_chain_end response run_id st) in
       stream st' = stream st ++ [chunk_of meta message]
       ∧ message_id st' message = Some (uuid4 (uuid_calls st))).
Proof.
  assert (Hemit : ∀ st meta message,
            None ∉ self_seen st → message_id st message = None →
            let st' := _emit meta message true st in
            stream st' = stream st ++ [chunk_of meta message]
            ∧ message_id st' message = Some (uuid4 (uuid_calls st))
            ∧ Some (uuid4 (uuid_calls st)) ∈ self_seen st'
            ∧ (None ∉ self_seen st')).
  { intros st meta message Hn Hid st'.
    assert (Hcond : true && bool_decide (message_id st message ∈ self_seen st) = false).
    { simpl. apply bool_decide_eq_false. by rewrite Hid. }
    pose proof (_emit_forward meta message true st Hcond) as (Hst & Hseen & Hids & _).
    unfold emitted_id in *. rewrite Hid in *. split_and!.
    - done.
    - subst st'. rewrite Hids. by rewrite decide_True.
    - subst st'. rewrite Hseen. apply elem_of_union_l. by apply elem_of_singleton.
    - exact (grow_seen_None st _ (_emit_grow meta message true st) Hn). }
  split_and!.
  - apply reachable_seen_None.
  - intros st meta message Hreach. apply Hemit. by apply reachable_seen_None.
  - intros st run_id meta response n message Hreach Hreg Hnested Hn Hid st'.
    subst st'. unfold on_chain_end. rewrite Hreg.
    assert (Hnested' : nested (set_self_metadata (delete run_id) st) n response
                         (VMessage message)) by by apply (nested_frame st).
    rewrite (_process_response_nested meta _ n _ _ Hnested' 0). simpl.
    rewrite bool_decide_eq_false_2 by lia.
    rewrite _process_response_eq, bool_decide_eq_false_2 by lia. simpl.
    assert (Hnone : None ∉ self_seen (set_self_metadata (delete run_id) st))
      by exact (reachable_seen_None st Hreach).
    destruct (Hemit (set_self_metadata (delete run_id) st) meta message Hnone Hid)
      as (H1 & H2 & _).
    split; assumption.
Qed.

(** ** Fresh identifiers *)

Section Fresh.
Hypothesis uuid4_inj : ∀ m n : nat, uuid4 m = uuid4 n → m = n.

Lemma grow_fresh st st' :
  grow st st' → pending_unseen st ∧ unforged st → pending_unseen st' ∧ unforged st'.
Proof.
  intros [Hu Hid Hs] [Hp Hf]. split.
  - intros n Hn Hin.
    destruct (Hs _ Hin) as [Hold|[(l & x & [= <-] & Hl)|(k & Hk & [= Hk'])]].
    + apply (Hp n); [lia|done].
    + apply (Hf l n); [lia|done].
    + apply uuid4_inj in Hk'. lia.
  - intros l n Hn Hl. destruct (Hid l) as [Heq|(k & Hk & Heq)].
    + apply (Hf l n); [lia|]. by rewrite <- Heq.
    + rewrite Heq in Hl. injection Hl as Hl. apply uuid4_inj in Hl. lia.
Qed.

Lemma reachable_fresh st :
  reachable_in unforged st → pending_unseen st ∧ unforged st.
Proof.
  induction 1 as [st Hf|e st _ IH|meta message dedupe st _ IH
                 |st st' _ IH (_ & Hseen & _ & Hu) Hf].
  - split; [|exact Hf]. intros n _. simpl. apply not_elem_of_empty.
  - exact (grow_fresh st _ (handle_grow e st) IH).
  - exact (grow_fresh st _ (_emit_grow meta message dedupe st) IH).
  - split; [|exact Hf]. intros n Hn. rewrite Hseen. apply (proj1 IH). lia.
Qed.
End Fresh.

(** C8. Whenever the emitter forwards a message, the chunk it hands to the
    sink refers to a message whose identity is set: the one it had, or, if
    it had none, the identifier just drawn from uuid4, written onto the
    message.  Given that uuid4 never returns the same identifier twice and
    that the host presents no message carrying an identifier uuid4 has yet
    to return, the identifier drawn is in the Seen-Set of no state the
    handler reaches, and no message carries it. *)
Theorem C8_identity_assignment :
  (∀ m n : nat, uuid4 m = uuid4 n → m = n) →
  ∀ st meta message dedupe,
    reachable_in unforged st →
    dedupe && bool_decide (message_id st message ∈ self_seen st) = false →
    let st' := _emit meta message dedupe st in
    stream st' = stream st ++ [chunk_of meta message]
    ∧ message_id st' message ≠ None
    ∧ message_id st' message ∈ self_seen st'
    ∧ (∀ x, message_id st message = Some x → message_id st' message = Some x)
    ∧ (message_id st message = None →
       message_id st' message = Some (uuid4 (uuid_calls st))
       ∧ (Some (uuid4 (uuid_calls st)) ∉ self_seen st)
       ∧ (∀ l, message_id st l ≠ Some (uuid4 (uuid_calls st)))).
Proof.
  intros Hinj st meta message dedupe Hreach Hcond st'.
  pose proof (_emit_forward meta message dedupe st Hcond) as (Hst & Hseen & Hid & _).
  pose proof (Hid message) as Hmsg. rewrite decide_True in Hmsg by done.
  destruct (reachable_fresh Hinj st Hreach) as [Hp Hf].
  subst st'. split_and!.
  - done.
  - rewrite Hmsg. unfold emitted_id. by destruct (message_id st message).
  - rewrite Hmsg, Hseen. apply elem_of_union_l. by apply elem_of_singleton.
  - intros x Hx. rewrite Hmsg. unfold emitted_id. by rewrite Hx.
  - intros Hnone. split_and!.
    + rewrite Hmsg. unfold emitted_id. by rewrite Hnone.
    + by apply Hp.
    + intros l. by apply Hf.
Qed.

(** * Further properties of the callbacks *)

(** ** The registry *)

Lemma register_metadata run_id d st :
  self_metadata (fst (register run_id d st)) = self_metadata st
  ∨ ∃ meta, self_metadata (fst (register run_id d st)) = <[run_id := meta]> (self_metadata st).
Proof.
  unfold register. destruct (checkpoint_ns st d) as [e|ns]; [by left|].
  right. by exists (ns, d).
Qed.

Lemma handle_metadata e st :
  self_metadata (fst (handle e st)) = self_metadata st
  ∨ self_metadata (fst (handle e st)) = delete (event_run_id e) (self_metadata st)
  ∨ ∃ meta, self_metadata (fst (handle e st))
            = <[event_run_id e := meta]> (self_metadata st).
Proof.
  destruct e as [run_id tags metadata|chunk run_id tags|run_id|run_id
                |inputs run_id tags metadata name|response run_id|run_id]; simpl.
  - unfold on_chat_model_start. destruct metadata as [d|]; [|by left].
    destruct (_ && _); [|by left].
    destruct (register_metadata run_id d st) as [?|?]; [by left|by right; right].
  - unfold on_llm_new_token. destruct chunk as [|text|message]; try by left.
    destruct (self_metadata st !! run_id) as [meta|] eqn:Hreg; [|by left].
    destruct (on_llm_new_token_registered message run_id tags meta st Hreg)
      as (st1 & Hr & _ & _ & Hm1 & _).
    unfold on_llm_new_token in Hr. rewrite Hreg in Hr. rewrite Hr. left.
    pose proof (_emit_forward meta message false st1 eq_refl) as (_ & _ & _ & _ & Hm & _).
    cbn [fst]. by rewrite Hm, Hm1.
  - by right; left.
  - by right; left.
  - unfold on_chain_start. destruct metadata as [d|]; [|by left].
    destruct (_ && _); [|by left].
    unfold seq_proc. pose proof (register_metadata run_id d st) as Hreg.
    destruct (register run_id d st) as [st1 [e|]]; simpl in *.
    + destruct Hreg as [?|?]; [by left|by right; right].
    + rewrite (seed_metadata _ _ (seed_inputs_rel inputs st1)).
      destruct Hreg as [?|?]; [by left|by right; right].
  - right; left. rewrite (walk_metadata _ _ (on_chain_end_walk response run_id st)). done.
  - by right; left.
Qed.

(** X1. A callback changes the registry at its own run identifier only:
    the entries of all other runs are what they were. *)
Theorem registry_isolation e st run_id :
  run_id ≠ event_run_id e →
  self_metadata (fst (handle e st)) !! run_id = self_metadata st !! run_id.
Proof.
  intros Hne. destruct (handle_metadata e st) as [->|[->|(meta & ->)]].
  - done.
  - by rewrite lookup_delete_ne.
  - by rewrite lookup_insert_ne.
Qed.

(** ** The Seen-Set only grows *)

Lemma _emit_seen meta message dedupe st :
  self_seen st ⊆ self_seen (_emit meta message dedupe st).
Proof.
  destruct (_emit_cases meta message dedupe st) as [(_ & _ & ->)|Hcond]; [done|].
  pose proof (_emit_forward meta message dedupe st Hcond) as (_ & -> & _).
  apply union_subseteq_r.
Qed.

Lemma handle_seen e st :
  self_seen st ⊆ self_seen (fst (handle e st)).
Proof.
  destruct e as [run_id tags metadata|chunk run_id tags|run_id|run_id
                |inputs run_id tags metadata name|response run_id|run_id]; simpl;
    try done.
  - unfold on_chat_model_start. destruct metadata as [d|]; [|done].
    destruct (_ && _); [|done]. unfold register. by destruct (checkpoint_ns st d).
  - unfold on_llm_new_token. destruct chunk as [|text|message]; try done.
    destruct (self_metadata st !! run_id) as [meta|]; [|done].
    unfold ret. cbn [fst]. etrans; [|apply _emit_seen]. by destruct (List.filter _ _).
  - unfold on_chain_start. destruct metadata as [d|]; [|done].
    destruct (_ && _); [|done].
    apply (seq_proc_rel (fun a b => self_seen a ⊆ self_seen b)).
    + intros a b c ??. by etrans.
    + unfold register. by destruct (checkpoint_ns st d).
    + intros st'. apply (seed_seen _ _ (seed_inputs_rel inputs st')).
  - apply (walk_seen _ _ (on_chain_end_walk response run_id st)).
Qed.

(** X2. No callback removes an identity from the Seen-Set, so what has
    been recorded stays recorded over any number of callbacks and host
    actions. *)
Theorem seen_monotone st st' :
  later st st' → self_seen st ⊆ self_seen st'.
Proof.
  induction 1 as [st|e st st' _ IH|st st' st'' _ IH (_ & Hseen & _)].
  - done.
  - etrans; [exact IH|]. apply handle_seen.
  - by rewrite Hseen.
Qed.

(** ** What a node end hands to the sink *)

Lemma emitted_rel_refl meta st : emitted_rel meta st st.
Proof.
  split; try done.
  - exists []. split_and!.
    + by rewrite app_nil_r.
    + apply NoDup_nil_2.
    + intros c Hc. by apply elem_of_nil in Hc.
  - intros new Hnew i j c1 c2 x Hi.
    rewrite <- (app_nil_r (stream st)) in Hnew at 1.
    apply app_inv_head in Hnew. by subst new.
Qed.

Lemma emitted_rel_trans meta a b c :
  emitted_rel meta a b → emitted_rel meta b c → emitted_rel meta a c.
Proof.
  intros [Hseen1 Hid1 (new1 & Hst1 & Hnd1 & Hnew1) Hdist1]
         [Hseen2 Hid2 (new2 & Hst2 & Hnd2 & Hnew2) Hdist2].
  split.
  - by etrans.
  - auto.
  - exists (new1 ++ new2). split_and!.
    + by rewrite Hst2, Hst1, app_assoc.
    + rewrite fmap_app. apply NoDup_app. split_and!; [done| |done].
      intros m (c1 & -> & Hc1)%list_elem_of_fmap (c2 & Hm & Hc2)%list_elem_of_fmap.
      destruct (Hnew1 c1 Hc1) as (_ & _ & x & Hx & Hin).
      destruct (Hnew2 c2 Hc2) as (_ & Hfresh & _).
      apply (Hfresh x); [by rewrite <- Hm|done].
    + intros ch [Hch|Hch]%elem_of_app.
      * destruct (Hnew1 ch Hch) as (Heq & Hfresh & x & Hx & Hin).
        split_and!; [done..|]. exists x. split; [by apply Hid2|by apply Hseen2].
      * destruct (Hnew2 ch Hch) as (Heq & Hfresh & Hafter).
        split_and!; [done| |done].
        intros x Hx Hin. apply (Hfresh x); [by apply Hid1|by apply Hseen1].
  - intros new Hnew i j c1 c2 x Hi Hj Hx1 Hx2.
    assert (new = new1 ++ new2) as ->.
    { rewrite Hst2, Hst1, <- app_assoc in Hnew. by apply app_inv_head in Hnew. }
    assert (Hcross : ∀ ch ch', ch ∈ new1 → ch' ∈ new2 →
              message_id a (chunk_message ch) = Some x →
              message_id a (chunk_message ch') = Some x → False).
    { intros ch ch' Hc Hc' Hcx Hcx'.
      destruct (Hnew1 ch Hc) as (_ & _ & y & Hy & Hin).
      rewrite (Hid1 _ _ Hcx) in Hy. injection Hy as <-.
      destruct (Hnew2 ch' Hc') as (_ & Hfresh & _).
      by apply (Hfresh x); [apply Hid1|]. }
    apply lookup_app_Some in Hi as [Hi|[Hli Hi]];
      apply lookup_app_Some in Hj as [Hj|[Hlj Hj]].
    + by apply (Hdist1 new1 Hst1 i j c1 c2 x).
    + exfalso. apply (Hcross c1 c2);
        [by eapply list_elem_of_lookup_2|by eapply list_elem_of_lookup_2|done|done].
    + exfalso. apply (Hcross c2 c1);
        [by eapply list_elem_of_lookup_2|by eapply list_elem_of_lookup_2|done|done].
    + assert (i - length new1 = j - length new1); [|lia].
      apply (Hdist2 new2 Hst2 _ _ c1 c2 x); [done..|by apply Hid1|by apply Hid1].
Qed.

Lemma emitted_rel_emit meta message st :
  emitted_rel meta st (_emit meta message true st).
Proof.
  destruct (_emit_cases meta message true st) as [(_ & _ & ->)|Hcond];
    [apply emitted_rel_refl|].
  pose proof (_emit_forward meta message true st Hcond)
    as (Hst & Hseen & Hid & _).
  simpl in Hcond. apply bool_decide_eq_false in Hcond.
  split.
  - rewrite Hseen. apply union_subseteq_r.
  - intros l x Hl. rewrite Hid. destruct (decide (l = message)) as [->|]; [|done].
    unfold emitted_id. by rewrite Hl.
  - exists [chunk_of meta message]. split_and!.
    + done.
    + apply NoDup_singleton.
    + intros c Hc. apply list_elem_of_singleton in Hc as ->.
      change (chunk_message (chunk_of meta message)) with message.
      split_and!.
      * done.
      * intros x Hx. by rewrite Hx in Hcond.
      * rewrite Hid, decide_True by done. rewrite Hseen. unfold emitted_id.
        destruct (message_id st message) as [x|]; eexists; (split; [done|]);
          apply elem_of_union_l; by apply elem_of_singleton.
  - intros new Hnew i j c1 c2 x Hi Hj _ _.
    rewrite Hst in Hnew. apply app_inv_head in Hnew. subst new.
    apply list_lookup_singleton_Some in Hi as [-> _].
    by apply list_lookup_singleton_Some in Hj as [-> _].
Qed.

Lemma on_chain_end_emitted response run_id meta st :
  self_metadata st !! run_id = Some meta →
  emitted_rel meta (set_self_metadata (delete run_id) st)
              (fst (on_chain_end response run_id st)).
Proof.
  intros Hreg. unfold on_chain_end. rewrite Hreg.
  apply _process_response_rel;
    [apply emitted_rel_refl | apply emitted_rel_trans | apply emitted_rel_emit].
Qed.

(** X3. One node end hands no message object to the sink twice, whatever
    the response: a message listed several times, or reachable along
    several paths, gets one chunk; and every message it does hand over has
    an identity, recorded in the Seen-Set. *)
Theorem node_end_emits_once response run_id st :
  ∃ new, stream (fst (on_chain_end response run_id st)) = stream st ++ new
    ∧ NoDup (chunk_message <$> new)
    ∧ ∀ c, c ∈ new →
        ∃ x, message_id (fst (on_chain_end response run_id st)) (chunk_message c) = Some x
             ∧ Some x ∈ self_seen (fst (on_chain_end response run_id st)).
Proof.
  destruct (self_metadata st !! run_id) as [meta|] eqn:Hreg.
  - destruct (on_chain_end_emitted response run_id meta st Hreg)
      as [_ _ (new & Hst & Hnd & Hnew) _].
    exists new. split_and!; [done..|].
    intros c Hc. by destruct (Hnew c Hc) as (_ & _ & ?).
  - rewrite on_chain_end_absent by done. exists []. split_and!.
    + by rewrite app_nil_r.
    + apply NoDup_nil_2.
    + intros c Hc. by apply elem_of_nil in Hc.
Qed.

(** X18. Among the messages of a response that carry the same identity,
    one node end hands at most one to the sink: of two chunks it adds, the
    messages did not have the same identity when the node end began. *)
Theorem node_end_emits_identity_once response run_id st :
  ∃ new, stream (fst (on_chain_end response run_id st)) = stream st ++ new
    ∧ ∀ i j c1 c2 x,
        new !! i = Some c1 → new !! j = Some c2 →
        message_id st (chunk_message c1) = Some x →
        message_id st (chunk_message c2) = Some x →
        i = j.
Proof.
  destruct (self_metadata st !! run_id) as [meta|] eqn:Hreg.
  - destruct (on_chain_end_emitted response run_id meta st Hreg)
      as [_ _ (new & Hnew & _) Hdist].
    exists new. split; [done|]. by apply Hdist.
  - rewrite on_chain_end_absent by done. exists []. split; [by rewrite app_nil_r|].
    by intros i j c1 c2 x Hi.
Qed.

(** X4. Every chunk a callback hands to the sink is built from the entry
    the registry holds for the event's run when the callback starts: its
    namespace path, the mode ["messages"], and its metadata dict.  The
    chunks handed over before stay as they are, and for a run without entry
    none is added. *)
Theorem chunks_carry_run_entry e st :
  ∃ new, stream (fst (handle e st)) = stream st ++ new
    ∧ ∀ c, c ∈ new →
        ∃ meta, self_metadata st !! event_run_id e = Some meta
                ∧ c = (fst meta, "messages", (chunk_message c, snd meta)).
Proof.
  assert (Hnone : ∀ P : StreamChunk → Prop, ∀ st' : State, stream st' = stream st →
            ∃ new, stream st' = stream st ++ new ∧ ∀ c, c ∈ new → P c).
  { intros P st' Hst. exists []. split; [by rewrite app_nil_r|].
    intros c Hc. by apply elem_of_nil in Hc. }
  destruct e as [run_id tags metadata|chunk run_id tags|run_id|run_id
                |inputs run_id tags metadata name|response run_id|run_id]; simpl;
    try by apply Hnone.
  - apply Hnone. unfold on_chat_model_start. destruct metadata as [d|]; [|done].
    destruct (_ && _); [|done]. unfold register. by destruct (checkpoint_ns st d).
  - destruct chunk as [|text|message]; try by apply Hnone.
    destruct (self_metadata st !! run_id) as [meta|] eqn:Hreg;
      [|rewrite on_llm_new_token_absent by done; by apply Hnone].
    destruct (on_llm_new_token_registered message run_id tags meta st Hreg)
      as (st1 & Hr & Hst1 & _).
    rewrite Hr.
    pose proof (_emit_forward meta message false st1 eq_refl) as (Hst & _).
    exists [chunk_of meta message]. cbn [fst]. split; [by rewrite Hst, Hst1|].
    intros c Hc. apply list_elem_of_singleton in Hc as ->. by exists meta.
  - apply Hnone. unfold on_chain_start. destruct metadata as [d|]; [|done].
    destruct (_ && _); [|done]. unfold seq_proc.
    assert (Hreg : stream (fst (register run_id d st)) = stream st).
    { unfold register. by destruct (checkpoint_ns st d). }
    destruct (register run_id d st) as [st1 [e|]]; simpl in *; [done|].
    by rewrite (seed_stream _ _ (seed_inputs_rel inputs st1)).
  - destruct (self_metadata st !! run_id) as [meta|] eqn:Hreg.
    + destruct (on_chain_end_emitted response run_id meta st Hreg)
        as [_ _ (new & Hst & _ & Hnew) _].
      exists new. split; [done|]. intros c Hc. exists meta. split; [done|].
      by destruct (Hnew c Hc) as (? & _).
    + rewrite on_chain_end_absent by done. by apply Hnone.
Qed.

(** ** Emitting again *)

Lemma _emit_recorded meta message dedupe st :
  message_id (_emit meta message dedupe st) message
  ∈ self_seen (_emit meta message dedupe st).
Proof.
  destruct (_emit_cases meta message dedupe st) as [(_ & Hin & ->)|Hcond]; [done|].
  pose proof (_emit_forward meta message dedupe st Hcond) as (_ & Hseen & Hid & _).
  rewrite Hid, decide_True by done. rewrite Hseen.
  apply elem_of_union_l. by apply elem_of_singleton.
Qed.

(** X5. Once a message object has been through the emitter, forwarded or
    skipped, emitting the same object again with dedupe on changes nothing,
    whatever run it is emitted for; this holds as well for a message that
    had no identity at first, since the identifier drawn for it is written
    onto the object. *)
Theorem emit_again_is_noop meta meta' message dedupe st :
  _emit meta' message true (_emit meta message dedupe st) = _emit meta message dedupe st.
Proof. apply _emit_skip, _emit_recorded. Qed.

Lemma later_seen st st' : later st st' → self_seen st ⊆ self_seen st'.
Proof.
  induction 1 as [st|e st st' _ IH|st st' st'' _ IH (_ & Hseen & _)].
  - done.
  - etrans; [exact IH|]. apply handle_seen.
  - by rewrite Hseen.
Qed.

(** X6. A message streamed token by token is not emitted again in full:
    after a token event has forwarded a message, no node end, of whatever
    run and however many callbacks and host actions later, hands over a
    message that carries the identity the streamed message was given. *)
Theorem streamed_message_not_reemitted run_id meta message tags st :
  self_metadata st !! run_id = Some meta →
  let st1 := fst (on_llm_new_token (ChatGenerationChunk message) run_id tags st) in
  ∀ st2 response run_id2 message2,
    later st1 st2 →
    message_id st2 message2 = message_id st1 message →
    ∃ new, stream (fst (on_chain_end response run_id2 st2)) = stream st2 ++ new
           ∧ ∀ c, c ∈ new → chunk_message c ≠ message2.
Proof.
  intros Hreg st1 st2 response run_id2 message2 Hlater Hsame.
  destruct (on_llm_new_token_registered message run_id tags meta st Hreg)
    as (st0 & Hr & _).
  assert (Hrec : message_id st1 message ∈ self_seen st1).
  { subst st1. rewrite Hr. cbn [fst]. apply _emit_recorded. }
  assert (Hsome : ∃ x, message_id st1 message = Some x).
  { subst st1. rewrite Hr. cbn [fst].
    pose proof (_emit_forward meta message false st0 eq_refl) as (_ & _ & Hid & _).
    rewrite Hid, decide_True by done. unfold emitted_id.
    destruct (message_id st0 message); by eexists. }
  destruct Hsome as [x Hx]. rewrite Hx in Hrec, Hsame.
  apply (later_seen _ _ Hlater) in Hrec.
  by destruct (on_chain_end_seen response run_id2 st2 message2 x Hsame Hrec)
    as (_ & _ & Hnew).
Qed.

(** ** A run ends once *)

(** X7. A node end uses up the run's entry whether or not the walk of the
    response raised: a second node end for the run, with any response, and
    any token event for it, return the state they are given. *)
Theorem node_end_is_one_shot response run_id st :
  let st' := fst (on_chain_end response run_id st) in
  (∀ response', on_chain_end response' run_id st' = (st', None))
  ∧ (∀ chunk tags, on_llm_new_token chunk run_id tags st' = (st', None)).
Proof.
  intros st'. pose proof (on_chain_end_removes response run_id st) as Habs.
  split.
  - intros response'. by apply on_chain_end_absent.
  - intros chunk tags. by apply on_llm_new_token_absent.
Qed.

(** ** Registration *)

(** X8. When the metadata passes the guard of a start handler but has no
    ["langgraph_checkpoint_ns"] key, the handler raises KeyError and leaves
    the state as it was: the run is not registered and a node start seeds
    nothing from its inputs. *)
Theorem missing_namespace_raises :
  (∀ run_id tags d st,
     truthy_dict st (Some d) = true →
     not_tagged TAG_NOSTREAM tags = true →
     assoc "langgraph_checkpoint_ns" (dicts st !!! d) = None →
     on_chat_model_start run_id tags (Some d) st = (st, Some KeyError))
  ∧ (∀ inputs run_id tags d name st,
       truthy_dict st (Some d) = true →
       name_eq name (assoc "langgraph_node" (dicts st !!! d)) = true →
       not_tagged TAG_HIDDEN tags = true →
       assoc "langgraph_checkpoint_ns" (dicts st !!! d) = None →
       on_chain_start inputs run_id tags (Some d) name st = (st, Some KeyError)).
Proof.
  split.
  - intros run_id tags d st Hmd Htag Hkey.
    unfold on_chat_model_start. rewrite Hmd, Htag. simpl.
    unfold register, checkpoint_ns. by rewrite Hkey.
  - intros inputs run_id tags d name st Hmd Hname Htag Hkey.
    unfold on_chain_start. rewrite Hmd, Hname, Htag. simpl.
    unfold seq_proc, register, checkpoint_ns. by rewrite Hkey.
Qed.

(** X9. A model start that registers, followed by a token event for the
    run, hands the sink one chunk whose namespace path is the
    ["langgraph_checkpoint_ns"] string of the metadata split at NS_SEP,
    whose mode is ["messages"] and whose metadata is the dict the start
    event was given. *)
Theorem model_run_streams_under_namespace run_id tags d s ns message tags' st :
  truthy_dict st (Some d) = true →
  not_tagged TAG_NOSTREAM tags = true →
  assoc "langgraph_checkpoint_ns" (dicts st !!! d) = Some (VStr s) →
  split s NS_SEP = inr ns →
  let st1 := fst (on_chat_model_start run_id tags (Some d) st) in
  snd (on_chat_model_start run_id tags (Some d) st) = None
  ∧ stream (fst (on_llm_new_token (ChatGenerationChunk message) run_id tags' st1))
    = stream st ++ [(ns, "messages", (message, d))].
Proof.
  intros Hmd Htag Hkey Hsplit st1.
  assert (Hns : checkpoint_ns st d = inr ns).
  { unfold checkpoint_ns. by rewrite Hkey. }
  assert (Hstart : on_chat_model_start run_id tags (Some d) st
                   = (set_self_metadata (<[run_id := (ns, d)]>) st, None)).
  { unfold on_chat_model_start. rewrite Hmd, Htag. simpl. by apply register_ok. }
  subst st1. rewrite Hstart. cbn [fst snd]. split; [done|].
  assert (Hreg : self_metadata (set_self_metadata (<[run_id := (ns, d)]>) st) !! run_id
                 = Some (ns, d)) by apply lookup_insert_eq.
  destruct (on_llm_new_token_registered message run_id tags' (ns, d) _ Hreg)
    as (st0 & Hr & Hst0 & _).
  rewrite Hr. cbn [fst].
  pose proof (_emit_forward (ns, d) message false st0 eq_refl) as (Hst & _).
  by rewrite Hst, Hst0.
Qed.

(** ** Runs that never started *)



(** ** Tags written into the metadata *)

Lemma assoc_setitem_eq key v items : assoc key (setitem key v items) = Some v.
Proof.
  induction items as [|[k v'] items IH]; simpl.
  - by rewrite bool_decide_eq_true_2.
  - case_bool_decide as Hk; simpl.
    + by rewrite bool_decide_eq_true_2.
    + by rewrite bool_decide_eq_false_2.
Qed.

Lemma assoc_setitem_ne key key' v items :
  key' ≠ key → assoc key' (setitem key v items) = assoc key' items.
Proof.
  intros Hne. induction items as [|[k v'] items IH]; simpl.
  - by rewrite bool_decide_eq_false_2.
  - case_bool_decide as Hk; simpl.
    + subst k. by rewrite !bool_decide_eq_false_2 by done.
    + by rewrite IH.
Qed.

(** X11. A token event for a registered run whose tags, the ["seq:step"]
    ones left out, are not empty writes them as a new list under ["tags"]
    into the run's metadata dict: the other keys of the dict, the other
    dicts and the lists that exist keep their contents, and the namespace
    read from the dict is what it was.  When no tag is left, no dict and no
    list is touched. *)
Theorem token_tags_written run_id ns d message tags st :
  self_metadata st !! run_id = Some (ns, d) →
  let filtered_tags :=
    List.filter (fun t => negb (startswith t "seq:step")) (default [] tags) in
  let st' := fst (on_llm_new_token (ChatGenerationChunk message) run_id tags st) in
  (filtered_tags = [] → dicts st' = dicts st ∧ seqs st' = seqs st)
  ∧ (filtered_tags ≠ [] →
     ∃ l, seqs st !! l = None
       ∧ seqs st' !! l = Some (VStr <$> filtered_tags)
       ∧ assoc "tags" (dicts st' !!! d) = Some (VSeq l)
       ∧ (∀ key, key ≠ "tags" → assoc key (dicts st' !!! d) = assoc key (dicts st !!! d))
       ∧ (∀ d', d' ≠ d → dicts st' !! d' = dicts st !! d')
       ∧ (∀ l', l' ≠ l → seqs st' !! l' = seqs st !! l')
       ∧ checkpoint_ns st' d = checkpoint_ns st d).
Proof.
  intros Hreg filtered_tags st'.
  assert (Hst' : st' = _emit (ns, d) message false
                         match filtered_tags with
                         | [] => st
                         | _ => set_tags d filtered_tags st
                         end).
  { subst st'. unfold on_llm_new_token. by rewrite Hreg. }
  pose proof (_emit_forward (ns, d) message false
                match filtered_tags with [] => st | _ => set_tags d filtered_tags st end
                eq_refl) as (_ & _ & _ & _ & _ & Hd & Hs & _).
  rewrite <- Hst' in Hd, Hs. split.
  - intros Hnil. rewrite Hnil in Hd, Hs. done.
  - intros Hne. destruct filtered_tags as [|t ts] eqn:Hf; [done|].
    exists (fresh (dom (seqs st))).
    assert (Hfresh : seqs st !! fresh (dom (seqs st)) = None).
    { apply not_elem_of_dom, is_fresh. }
    assert (Hdict : dicts st' !!! d = setitem "tags" (VSeq (fresh (dom (seqs st))))
                                         (dicts st !!! d)).
    { rewrite Hd. simpl. by rewrite lookup_total_insert_eq. }
    split_and!.
    + done.
    + rewrite Hs. simpl. by rewrite lookup_insert_eq.
    + rewrite Hdict. apply assoc_setitem_eq.
    + intros key Hkey. rewrite Hdict. by apply assoc_setitem_ne.
    + intros d' Hd'. rewrite Hd. simpl. by rewrite lookup_insert_ne.
    + intros l' Hl'. rewrite Hs. simpl. by rewrite lookup_insert_ne.
    + unfold checkpoint_ns. rewrite Hdict. by rewrite assoc_setitem_ne.
Qed.

(** ** Names between double underscores *)


(** ** Where exceptions come from *)





(** ** What seeding records, exactly *)

Lemma for_each_inv {A : Type} (I : State → Prop) (xs : list A) (body : A → proc) :
  (∀ x st, x ∈ xs → I st → I (fst (body x st))) →
  ∀ st, I st → I (fst (for_each xs body st)).
Proof.
  induction xs as [|x xs IH]; intros HI st Hst; simpl; [done|].
  unfold seq_proc.
  pose proof (HI x st (list_elem_of_here _ _) Hst) as HI'.
  destruct (body x st) as [st' [e|]]; simpl in *; [done|].
  apply IH; [|done]. intros y st0 Hy. apply HI. by apply list_elem_of_further.
Qed.

Lemma seed_message_from st0 (S : loc → Prop) message st :
  S message → seeded_from st0 S st → seeded_from st0 S (fst (seed_message message st)).
Proof.
  intros HS (Hmsg & Hs & Hseen). unfold seed_message.
  destruct (message_id st message) as [x|] eqn:Hid; [|done].
  split_and!; [done..|]. simpl. intros i [Hi|Hi]%elem_of_union; [|by apply Hseen].
  apply elem_of_singleton in Hi as ->. right. exists message, x.
  split_and!; [done..|]. unfold message_id in *. by rewrite <- Hmsg.
Qed.

Lemma seed_inputs_from inputs st :
  seeded_from st (input_message st inputs) (fst (seed_inputs inputs st)).
Proof.
  assert (H0 : seeded_from st (input_message st inputs) st).
  { split_and!; [done..|]. intros i Hi. by left. }
  unfold seed_inputs. destruct inputs as [|s|message|d|s|o]; try done.
  apply for_each_inv; [|done]. intros [k v] st1 Hkv Hst1.
  unfold seed_entry. simpl. destruct v as [|s|message|d'|s|o]; try done.
  - apply seed_message_from; [|done]. exists d, k, (VMessage message).
    split_and!; [done..|]. by left.
  - apply for_each_inv; [|done]. intros item st2 Hitem Hst2.
    destruct item as [|s'|message|d'|s'|o]; try done.
    apply seed_message_from; [|done]. exists d, k, (VSeq s).
    split_and!; [done..|]. right. exists s. split; [done|].
    destruct Hst1 as (_ & Hs & _). by rewrite <- Hs.
Qed.

(** X14. A node start that registers adds to the Seen-Set the identities
    of the messages that are values of the inputs or elements of a list
    among them, and nothing else: a message held deeper in the inputs is
    not recorded.  It hands nothing to the sink and changes no message. *)
Theorem seeding_is_exact inputs run_id tags d name ns st :
  truthy_dict st (Some d) = true →
  name_eq name (assoc "langgraph_node" (dicts st !!! d)) = true →
  not_tagged TAG_HIDDEN tags = true →
  checkpoint_ns st d = inr ns →
  let st1 := fst (on_chain_start inputs run_id tags (Some d) name st) in
  (∀ i, i ∈ self_seen st1 ↔
        i ∈ self_seen st
        ∨ ∃ m x, i = Some x ∧ input_message st inputs m ∧ message_id st m = Some x)
  ∧ stream st1 = stream st
  ∧ messages st1 = messages st.
Proof.
  intros Hmd Hname Htag Hns st1.
  assert (Hst1 : st1 = fst (seed_inputs inputs
                              (set_self_metadata (<[run_id := (ns, d)]>) st))).
  { subst st1. unfold on_chain_start. rewrite Hmd, Hname, Htag. simpl.
    unfold seq_proc. by rewrite (register_ok run_id d ns st Hns). }
  pose proof (seed_inputs_rel inputs (set_self_metadata (<[run_id := (ns, d)]>) st))
    as Hrel.
  pose proof (seed_inputs_from inputs (set_self_metadata (<[run_id := (ns, d)]>) st))
    as (_ & _ & Hfrom).
  rewrite <- Hst1 in Hrel, Hfrom.
  split_and!.
  - intros i. split; [exact (Hfrom i)|].
    intros [Hi|(m & x & -> & Hin & Hid)].
    + by apply (seed_seen _ _ Hrel).
    + rewrite Hst1. by apply (seed_inputs_seeds inputs _ m x).
  - apply (seed_stream _ _ Hrel).
  - apply (seed_messages _ _ Hrel).
Qed.

(** ** Order of the chunks *)

Lemma _emit_new meta message x st :
  message_id st message = Some x → Some x ∉ self_seen st →
  stream (_emit meta message true st) = stream st ++ [chunk_of meta message]
  ∧ self_seen (_emit meta message true st) = {[ Some x ]} ∪ self_seen st
  ∧ messages (_emit meta message true st) = messages st.
Proof.
  intros Hid Hnew. unfold _emit. rewrite Hid. simpl.
  rewrite bool_decide_eq_false_2 by done. simpl. by rewrite Hid.
Qed.

Lemma walk_messages meta depth ms :
  (depth < 5)%nat →
  ∀ st,
    NoDup (message_id st <$> ms) →
    (∀ m, m ∈ ms → message_id st m ≠ None ∧ message_id st m ∉ self_seen st) →
    ∃ st', for_each (VMessage <$> ms) (fun v => _process_response v meta depth) st
           = (st', None)
      ∧ stream st' = stream st ++ (chunk_of meta <$> ms)
      ∧ self_seen st' = list_to_set (message_id st <$> ms) ∪ self_seen st
      ∧ messages st' = messages st.
Proof.
  intros Hdepth. induction ms as [|m ms IH]; intros st Hnd Hms.
  - exists st. split_and!; [done|by rewrite app_nil_r| |done].
    simpl. symmetry. apply (left_id_L ∅ (∪)).
  - rewrite fmap_cons in Hnd. apply NoDup_cons in Hnd as [Hm Hnd].
    destruct (Hms m (list_elem_of_here _ _)) as [Hsome Hunseen].
    destruct (message_id st m) as [x|] eqn:Hid; [|done].
    destruct (_emit_new meta m x st Hid Hunseen) as (Hst & Hseen & Hmsg).
    assert (Hids : ∀ l, message_id (_emit meta m true st) l = message_id st l).
    { intros l. unfold message_id. by rewrite Hmsg. }
    destruct (IH (_emit meta m true st)) as (st' & Hrun & Hst' & Hseen' & Hmsg').
    { erewrite list_fmap_ext; [exact Hnd|]. intros i l _. apply Hids. }
    { intros l Hl. rewrite Hids. destruct (Hms l (list_elem_of_further _ _ _ Hl))
        as [Hl1 Hl2]. split; [done|]. rewrite Hseen.
      intros [Hin|Hin]%elem_of_union; [|done].
      apply elem_of_singleton in Hin. apply Hm. rewrite <- Hin.
      by apply list_elem_of_fmap_2. }
    exists st'. split_and!.
    + simpl. unfold seq_proc. rewrite _process_response_eq.
      rewrite bool_decide_eq_false_2 by lia. simpl. exact Hrun.
    + rewrite Hst', Hst, fmap_cons. by rewrite <- app_assoc.
    + rewrite Hseen', Hseen, fmap_cons. simpl. rewrite Hid.
      erewrite (list_fmap_ext (message_id (_emit meta m true st)) (message_id st));
        [|intros i l _; apply Hids].
      rewrite (assoc_L (∪)). f_equal. apply (comm_L (∪)).
    + by rewrite Hmsg', Hmsg.
Qed.

(** X15. A node end whose response is a list of messages with identities
    that differ from one another and are not in the Seen-Set hands them to
    the sink one chunk each, in the order of the list, records all the
    identities, raises nothing and changes no message. *)
Theorem list_response_emitted_in_order run_id meta s ms st :
  self_metadata st !! run_id = Some meta →
  seqs st !!! s = VMessage <$> ms →
  NoDup (message_id st <$> ms) →
  (∀ m, m ∈ ms → message_id st m ≠ None ∧ message_id st m ∉ self_seen st) →
  let r := on_chain_end (VSeq s) run_id st in
  snd r = None
  ∧ stream (fst r) = stream st ++ (chunk_of meta <$> ms)
  ∧ self_seen (fst r) = list_to_set (message_id st <$> ms) ∪ self_seen st
  ∧ messages (fst r) = messages st.
Proof.
  intros Hreg Hs Hnd Hms r.
  destruct (walk_messages meta 1 ms ltac:(lia) (set_self_metadata (delete run_id) st)
              Hnd Hms) as (st' & Hrun & Hst' & Hseen' & Hmsg').
  assert (Hr : r = (st', None)).
  { subst r. unfold on_chain_end. rewrite Hreg.
    rewrite _process_response_eq. simpl. by rewrite Hs. }
  rewrite Hr. by split_and!.
Qed.

(** ** What the handler writes into the heap *)

Lemma _emit_messages meta message dedupe st :
  messages (_emit meta message dedupe st) = messages st
  ∨ (message_id st message = None
     ∧ messages (_emit meta message dedupe st)
       = <[message := mkBaseMessage (Some (uuid4 (uuid_calls st)))
                        (content (messages st !!! message))]> (messages st)).
Proof.
  unfold _emit. destruct (dedupe && _); [by left|].
  destruct (message_id st message) as [x|] eqn:Hid; [by left|]. by right.
Qed.

Lemma msg_rel_frame st st' : messages st' = messages st → msg_rel st st'.
Proof. intros Hmsg l. left. by rewrite Hmsg. Qed.

Lemma msg_rel_trans a b c : msg_rel a b → msg_rel b c → msg_rel a c.
Proof.
  intros Hab Hbc l. destruct (Hbc l) as [Hc|(Hnone & n & Hc)].
  - rewrite Hc. apply Hab.
  - destruct (Hab l) as [Hb|(_ & k & Hb)].
    + right. unfold message_id in *. rewrite <- Hb. split; [done|]. by exists n.
    + unfold message_id in Hnone. by rewrite Hb in Hnone.
Qed.

Lemma _emit_msg_rel meta message dedupe st : msg_rel st (_emit meta message dedupe st).
Proof.
  destruct (_emit_messages meta message dedupe st) as [Heq|[Hnone Heq]];
    [by apply msg_rel_frame|].
  intros l. rewrite Heq. destruct (decide (l = message)) as [->|Hl].
  - right. split; [done|]. exists (uuid_calls st). by rewrite lookup_total_insert_eq.
  - left. by rewrite lookup_total_insert_ne.
Qed.

Lemma handle_msg_rel e st : msg_rel st (fst (handle e st)).
Proof.
  destruct e as [run_id tags metadata|chunk run_id tags|run_id|run_id
                |inputs run_id tags metadata name|response run_id|run_id]; simpl;
    try by apply msg_rel_frame.
  - apply msg_rel_frame. unfold on_chat_model_start. destruct metadata as [d|]; [|done].
    destruct (_ && _); [|done]. unfold register. by destruct (checkpoint_ns st d).
  - unfold on_llm_new_token. destruct chunk as [|text|message];
      try by apply msg_rel_frame.
    destruct (self_metadata st !! run_id) as [meta|]; [|by apply msg_rel_frame].
    unfold ret. cbn [fst]. eapply msg_rel_trans; [|apply _emit_msg_rel].
    apply msg_rel_frame. by destruct (List.filter _ _).
  - apply msg_rel_frame. unfold on_chain_start. destruct metadata as [d|]; [|done].
    destruct (_ && _); [|done]. unfold seq_proc.
    assert (Hreg : messages (fst (register run_id d st)) = messages st).
    { unfold register. by destruct (checkpoint_ns st d). }
    destruct (register run_id d st) as [st1 [e|]]; simpl in *; [done|].
    by rewrite (seed_messages _ _ (seed_inputs_rel inputs st1)).
  - unfold on_chain_end.
    destruct (self_metadata st !! run_id) as [meta|]; [|by apply msg_rel_frame].
    eapply msg_rel_trans;
      [apply (msg_rel_frame st (set_self_metadata (delete run_id) st)); done|].
    apply _process_response_rel.
    + intros st'. by apply msg_rel_frame.
    + apply msg_rel_trans.
    + intros message st'. apply _emit_msg_rel.
Qed.

(** X16. Over any sequence of callbacks a message object is either what it
    was or, if it had no identity, the same content under an identifier
    drawn from uuid4: the handler never rewrites a content, and never
    replaces or removes an identity a message has. *)
Theorem messages_only_gain_identity es st l :
  messages (run_events es st) !!! l = messages st !!! l
  ∨ (message_id st l = None
     ∧ ∃ n, messages (run_events es st) !!! l
            = mkBaseMessage (Some (uuid4 n)) (content (messages st !!! l))).
Proof.
  assert (Hrun : ∀ es st, msg_rel st (run_events es st)).
  { clear. intros es. induction es as [|e es IH]; intros st; simpl.
    - by apply msg_rel_frame.
    - eapply msg_rel_trans; [apply handle_msg_rel|apply IH]. }
  apply Hrun.
Qed.



End Handler.

(** * Concrete runs *)

(** C1 at [Command(resume=AIMessage(id="m1"))]: the message under [resume]
    is handed to the sink although [update] is [None]; the walk goes through
    [dir()], and the [isinstance(response, Command)] branch is never
    reached. *)
Theorem C1_command_fields_walked :
  on_chain_end u4 (VObject 0) 7%N ex_command
  = (_emit u4 (["a"], 3) 0 true (set_self_metadata (delete 7%N) ex_command), None)
  ∧ stream (fst (on_chain_end u4 (VObject 0) 7%N ex_command))
    = [(["a"], "messages", (0, 3))].
Proof. split; vm_compute; reflexivity. Qed.

(** C2 as stated fails: a read that raises ValueError is not swallowed; the
    exception reaches the caller of the node-end handler and the message in
    the next field is not emitted, while the same object without the
    failing field has it emitted. *)
Lemma C2_counterexample :
  snd (on_chain_end u4 (VObject 0) 7%N ex_failing_read) = Some ValueError
  ∧ stream (fst (on_chain_end u4 (VObject 0) 7%N ex_failing_read)) = []
  ∧ on_chain_end u4 (VObject 1) 7%N ex_failing_read
    = (_emit u4 (["a"], 3) 0 true (set_self_metadata (delete 7%N) ex_failing_read), None).
Proof. split_and!; vm_compute; reflexivity. Qed.

Lemma C2_failed_read_witness :
  _process_response u4 (VObject 2) (["a"], 3) 0 ex_failing_read
  = _process_response u4 (VObject 3) (["a"], 3) 0 ex_failing_read
  ∧ _process_response u4 (VObject 0) (["a"], 3) 0 ex_failing_read
    = (ex_failing_read, Some ValueError).
Proof.
  split.
  - apply (proj1 (C2_failed_read u4) (["a"], 3) 0 ex_failing_read 2 3
             [] "a" [("b", Returns (VMessage 0))]); reflexivity.
  - apply (proj2 (C2_failed_read u4) (["a"], 3) 0 ex_failing_read ex_failing_read 0 4
             [] "a" ValueError [("b", Returns (VMessage 0))]).
    + lia.
    + reflexivity.
    + reflexivity.
    + discriminate.
    + reflexivity.
    + vm_compute. reflexivity.
Defined.

Lemma C3_dedup_on_completion_witness :
  (∀ meta, _emit u4 meta 1 true ex_seen = ex_seen)
  ∧ let st' := fst (on_chain_end u4 (VSeq 0) 7%N ex_seen) in
    message_id st' 1 = Some "m1" ∧ Some "m1" ∈ self_seen st'
    ∧ ∃ new, stream st' = stream ex_seen ++ new ∧ ∀ c, c ∈ new → chunk_message c ≠ 1.
Proof.
  apply (C3_dedup_on_completion u4 (VSeq 0) 7%N ex_seen 1 "m1").
  - reflexivity.
  - vm_compute. reflexivity.
Defined.

Lemma C4_no_dedup_on_tokens_witness :
  let r := on_llm_new_token u4 (ChatGenerationChunk 0) 7%N (Some ["seq:step:1"; "fast"]) ex_seen in
  snd r = None
  ∧ stream (fst r) = stream ex_seen ++ [chunk_of (["a"], 3) 0]
  ∧ message_id (fst r) 0 = emitted_id u4 ex_seen 0
  ∧ message_id (fst r) 0 ∈ self_seen (fst r)
  ∧ self_metadata (fst r) !! 7%N = Some (["a"], 3)
  ∧ ∀ st1 message2 tags2,
      host_step (fst r) st1 →
      stream (fst (on_llm_new_token u4 (ChatGenerationChunk message2) 7%N tags2 st1))
      = stream ex_seen ++ [chunk_of (["a"], 3) 0; chunk_of (["a"], 3) message2].
Proof.
  apply (C4_no_dedup_on_tokens u4 7%N (["a"], 3) 0 (Some ["seq:step:1"; "fast"]) ex_seen).
  reflexivity.
Defined.

Lemma C5_input_seeding_witness :
  let r := on_chain_start "|" "langsmith:hidden" (VDict 4) 2%N (Some ["graph:step:1"])
             (Some 3) (Some "N") ex_inputs in
  snd r = None
  ∧ self_metadata (fst r) !! 2%N = Some (["a"], 3)
  ∧ ∀ seeded x,
      input_message ex_inputs (VDict 4) seeded → message_id ex_inputs seeded = Some x →
      Some x ∈ self_seen (fst r)
      ∧ ∀ st1 response message,
          host_step (fst r) st1 →
          message_id st1 message = Some x →
          let st2 := fst (on_chain_end u4 response 2%N st1) in
          (∃ new, stream st2 = stream st1 ++ new
                  ∧ ∀ c, c ∈ new → chunk_message c ≠ message)
          ∧ self_metadata st2 !! 2%N = None.
Proof.
  apply (C5_input_seeding u4 "|" "langsmith:hidden" (VDict 4) 2%N (Some ["graph:step:1"])
           3 (Some "N") ["a"] ex_inputs).
  - reflexivity.
  - reflexivity.
  - reflexivity.
  - reflexivity.
Defined.

Lemma C6_depth_cap_witness :
  on_chain_end u4 (VSeq 0) 7%N ex_nested
  = _process_response u4 (VSeq 0) (["a"], 3) 0 (set_self_metadata (delete 7%N) ex_nested)
  ∧ _process_response u4 (VMessage 0) (["a"], 3) 5 ex_nested = (ex_nested, None)
  ∧ _process_response u4 (VSeq 0) (["a"], 3) 0 ex_nested
    = (_emit u4 (["a"], 3) 0 true ex_nested, None)
  ∧ _process_response u4 (VSeq 4) (["a"], 3) 0 ex_nested = (ex_nested, None)
  ∧ _process_response u4 (VSeq 9) (["a"], 3) 0 ex_nested = (ex_nested, None).
Proof.
  destruct (C6_depth_cap u4) as (Hstart & Hcap & Hfour & Hfive & Hcycle).
  assert (Hn : nested ex_nested 4 (VSeq 0) (VMessage 0)).
  { apply (nested_seq ex_nested 3 0 (VSeq 1)); [reflexivity|].
    apply (nested_seq ex_nested 2 1 (VSeq 2)); [reflexivity|].
    apply (nested_seq ex_nested 1 2 (VSeq 3)); [reflexivity|].
    apply (nested_seq ex_nested 0 3 (VMessage 0)); [reflexivity|].
    apply nested_here. }
  split_and!.
  - apply Hstart. reflexivity.
  - apply Hcap. lia.
  - apply (Hfour _ _ _ 4 0 Hn). lia.
  - apply (Hfive _ _ _ 5 (VMessage 0)); [|lia].
    apply (nested_seq ex_nested 4 4 (VSeq 0)); [reflexivity|exact Hn].
  - apply Hcycle. reflexivity.
Defined.

Lemma C7_tag_gating_witness :
  (on_chat_model_start "|" "langsmith:nostream" 5%N (Some ["langsmith:nostream"]) (Some 3) ex_token
   = (ex_token, None)
   ∧ ∀ chunk tags, on_llm_new_token u4 chunk 5%N tags ex_token = (ex_token, None))
  ∧ (on_chain_start "|" "langsmith:hidden" (VDict 4) 5%N (Some ["langsmith:hidden"])
       (Some 3) (Some "N") ex_token = (ex_token, None)
     ∧ ∀ response, on_chain_end u4 response 5%N ex_token = (ex_token, None)).
Proof.
  split.
  - destruct (proj1 (C7_tag_gating u4 "|" "langsmith:hidden" "langsmith:nostream")
                5%N ["langsmith:nostream"] (Some 3) ex_token) as [Hstart Htok].
    + apply list_elem_of_singleton. reflexivity.
    + split; [exact Hstart|]. apply (Htok ex_token). reflexivity.
  - destruct (proj2 (C7_tag_gating u4 "|" "langsmith:hidden" "langsmith:nostream")
                (VDict 4) 5%N ["langsmith:hidden"] (Some 3) (Some "N") ex_token)
      as [Hstart Hend].
    + apply list_elem_of_singleton. reflexivity.
    + split; [exact Hstart|]. apply (Hend ex_token). reflexivity.
Defined.

Lemma C9_removal_witness :
  (on_llm_end 7%N ex_token = (set_self_metadata (delete 7%N) ex_token, None)
   ∧ self_metadata (set_self_metadata (delete 7%N) ex_token) !! 7%N = None)
  ∧ on_llm_end 5%N ex_token = (ex_token, None)
  ∧ on_llm_error 5%N ex_token = (ex_token, None)
  ∧ on_chain_error 5%N ex_token = (ex_token, None)
  ∧ ∀ response, on_chain_end u4 response 5%N ex_token = (ex_token, None).
Proof.
  split.
  - destruct (proj1 (C9_removal u4) 7%N ex_token) as (H1 & _ & _ & H4 & _).
    split; [exact H1 | exact H4].
  - apply (proj2 (C9_removal u4) 5%N ex_token). reflexivity.
Defined.

Lemma u4_inj (m n : nat) : u4 m = u4 n → m = n.
Proof.
  unfold u4. intros H. apply (inj pretty). by apply (inj (String.app "uuid-")).
Qed.

Lemma ex_token_unforged : unforged u4 ex_token.
Proof.
  intros l n _. unfold message_id. simpl.
  destruct (decide (l = 0)) as [->|Hl].
  - by rewrite lookup_total_singleton_eq.
  - by rewrite lookup_total_singleton_ne.
Qed.

Lemma C8_identity_assignment_witness :
  let st' := _emit u4 (["a"], 3) 0 true (__init__ ex_token) in
  stream st' = stream (__init__ ex_token) ++ [chunk_of (["a"], 3) 0]
  ∧ message_id st' 0 ≠ None
  ∧ message_id st' 0 ∈ self_seen st'
  ∧ (∀ x, message_id (__init__ ex_token) 0 = Some x → message_id st' 0 = Some x)
  ∧ (message_id (__init__ ex_token) 0 = None →
     message_id st' 0 = Some (u4 0)
     ∧ (Some (u4 0) ∉ self_seen (__init__ ex_token))
     ∧ (∀ l, message_id (__init__ ex_token) l ≠ Some (u4 0))).
Proof.
  apply (C8_identity_assignment u4 "|" "langsmith:hidden" "langsmith:nostream" u4_inj
           (__init__ ex_token) (["a"], 3) 0 true).
  - apply reachable_init. exact ex_token_unforged.
  - reflexivity.
Defined.

Lemma C10_seen_never_null_witness :
  (None ∉ self_seen (__init__ ex_token))
  ∧ (let st' := _emit u4 (["a"], 3) 0 true (__init__ ex_token) in
     stream st' = stream (__init__ ex_token) ++ [chunk_of (["a"], 3) 0]
     ∧ message_id st' 0 = Some (u4 0)
     ∧ Some (u4 0) ∈ self_seen st'
     ∧ None ∉ self_seen st')
  ∧ (let st := fst (on_chat_model_start "|" "langsmith:nostream" 7%N None (Some 3)
                      (__init__ ex_token)) in
     let st' := fst (on_chain_end u4 (VMessage 0) 7%N st) in
     stream st' = stream st ++ [chunk_of (["a"], 3) 0]
     ∧ message_id st' 0 = Some (u4 (uuid_calls st))).
Proof.
  destruct (C10_seen_never_null u4 "|" "langsmith:hidden" "langsmith:nostream")
    as (Hinv & Hemit & Hend).
  assert (Hinit : reachable u4 "|" "langsmith:hidden" "langsmith:nostream" (__init__ ex_token)).
  { apply reachable_init. exact I. }
  split_and!.
  - apply Hinv. exact Hinit.
  - apply Hemit; [exact Hinit | reflexivity].
  - apply (Hend _ 7%N (["a"], 3) (VMessage 0) 0 0).
    + apply (reachable_callback u4 "|" "langsmith:hidden" "langsmith:nostream" _
               (ChatModelStart 7%N None (Some 3)) (__init__ ex_token) Hinit).
    + reflexivity.
    + apply nested_here.
    + lia.
    + reflexivity.
Defined.

(** * The scenarios of the specification *)

Example split_examples :
  split "a|b||c" "|" = inr ["a"; "b"; ""; "c"]
  ∧ split "" "|" = inr [""]
  ∧ split "a|" "|" = inr ["a"; ""]
  ∧ split "a::b:c" "::" = inr ["a"; "b:c"]
  ∧ split "a" "" = inl ValueError.
Proof. split_and!; reflexivity. Qed.

Example dunder_examples :
  (startswith "__init__" "__" && endswith "__init__" "__") = true
  ∧ (startswith "__private" "__" && endswith "__private" "__") = false
  ∧ (startswith "update" "__" && endswith "update" "__") = false.
Proof. split_and!; reflexivity. Qed.

(** model-start, one token for a message without identity, model-end: one
    chunk under the namespace [["a"]], the identity assigned, the entry
    gone. *)
Example scenario_tokens :
  let st1 := fst (on_chat_model_start "|" "langsmith:nostream" 1%N (Some []) (Some 1)
                    ex_scenario) in
  let st2 := fst (on_llm_new_token u4 (ChatGenerationChunk 0) 1%N None st1) in
  let st3 := fst (on_llm_end 1%N st2) in
  self_metadata st1 !! 1%N = Some (["a"], 1)
  ∧ stream st2 = [(["a"], "messages", (0, 1))]
  ∧ messages st2 !! 0 = Some (mkBaseMessage (Some "uuid-0") "Hi")
  ∧ stream st3 = stream st2
  ∧ self_metadata st3 !! 1%N = None.
Proof. split_and!; vm_compute; reflexivity. Qed.

(** node-start with the input message m1, node-end returning m1: nothing is
    emitted. *)
Example scenario_seeded :
  let st1 := fst (on_chain_start "|" "langsmith:hidden" (VDict 4) 2%N None (Some 3)
                    (Some "N") ex_scenario) in
  let st2 := fst (on_chain_end u4 (VDict 5) 2%N st1) in
  self_metadata st1 !! 2%N = Some (["b"; "c"], 3)
  ∧ self_seen st1 = {[ Some "m1" ]}
  ∧ stream st2 = []
  ∧ self_metadata st2 !! 2%N = None.
Proof. split_and!; vm_compute; reflexivity. Qed.

(** node-end with the response [[m2, {"x": m3}]]: two chunks, m2 before m3. *)
Example scenario_order :
  let st1 := fst (on_chain_start "|" "langsmith:hidden" (VDict 4) 2%N None (Some 3)
                    (Some "N") ex_scenario) in
  let st2 := fst (on_chain_end u4 (VSeq 0) 2%N st1) in
  stream st2 = [(["b"; "c"], "messages", (2, 3)); (["b"; "c"], "messages", (3, 3))]
  ∧ self_seen st2 = {[ Some "m1"; Some "m2"; Some "m3" ]}.
Proof. split_and!; vm_compute; reflexivity. Qed.

(** A token event with tags: the step tag is dropped, the rest is written
    into the run's metadata dict as a new list, and the chunk handed to the
    sink refers to that same dict. *)
Example scenario_tags :
  let st1 := fst (on_chat_model_start "|" "langsmith:nostream" 1%N (Some []) (Some 1)
                    ex_scenario) in
  let st2 := fst (on_llm_new_token u4 (ChatGenerationChunk 2) 1%N
                    (Some ["seq:step:1"; "fast"]) st1) in
  stream st2 = [(["a"], "messages", (2, 1))]
  ∧ dicts st2 !! 1 = Some [("langgraph_checkpoint_ns", VStr "a"); ("tags", VSeq 1)]
  ∧ seqs st2 !! 1 = Some [VStr "fast"]
  ∧ seqs st2 !! 0 = seqs ex_scenario !! 0.
Proof. split_and!; vm_compute; reflexivity. Qed.

(** * Further properties at concrete inputs *)

Lemma registry_isolation_witness :
  self_metadata (fst (handle u4 "|" "langsmith:hidden" "langsmith:nostream"
                        (ChainEnd (VSeq 0) 7%N) ex_two_runs)) !! 8%N
  = self_metadata ex_two_runs !! 8%N.
Proof.
  apply (registry_isolation u4 "|" "langsmith:hidden" "langsmith:nostream"
           (ChainEnd (VSeq 0) 7%N) ex_two_runs 8%N).
  discriminate.
Defined.

Lemma seen_monotone_witness :
  later u4 "|" "langsmith:hidden" "langsmith:nostream" ex_seen
    (fst (handle u4 "|" "langsmith:hidden" "langsmith:nostream" (LLMEnd 7%N) ex_seen))
  ∧ self_seen ex_seen
    ⊆ self_seen (fst (handle u4 "|" "langsmith:hidden" "langsmith:nostream"
                        (LLMEnd 7%N) ex_seen)).
Proof.
  assert (Hlater : later u4 "|" "langsmith:hidden" "langsmith:nostream" ex_seen
            (fst (handle u4 "|" "langsmith:hidden" "langsmith:nostream"
                    (LLMEnd 7%N) ex_seen))).
  { apply later_callback, later_refl. }
  split; [exact Hlater|].
  exact (seen_monotone u4 "|" "langsmith:hidden" "langsmith:nostream" _ _ Hlater).
Defined.

Lemma streamed_message_not_reemitted_witness :
  let st1 := fst (on_llm_new_token u4 (ChatGenerationChunk 0) 7%N None ex_token) in
  ∃ new, stream (fst (on_chain_end u4 (VMessage 0) 7%N st1)) = stream st1 ++ new
         ∧ ∀ c, c ∈ new → chunk_message c ≠ 0.
Proof.
  apply (streamed_message_not_reemitted u4 "|" "langsmith:hidden" "langsmith:nostream"
           7%N (["a"], 3) 0 None ex_token).
  - reflexivity.
  - apply later_refl.
  - reflexivity.
Defined.

Lemma missing_namespace_raises_witness :
  on_chat_model_start "|" "langsmith:nostream" 1%N None (Some 3) ex_no_namespace
  = (ex_no_namespace, Some KeyError)
  ∧ on_chain_start "|" "langsmith:hidden" (VDict 4) 1%N None (Some 3) (Some "N")
      ex_no_namespace
    = (ex_no_namespace, Some KeyError).
Proof.
  split.
  - apply (proj1 (missing_namespace_raises "|" "langsmith:hidden" "langsmith:nostream"));
      reflexivity.
  - apply (proj2 (missing_namespace_raises "|" "langsmith:hidden" "langsmith:nostream"));
      reflexivity.
Defined.

Lemma model_run_streams_under_namespace_witness :
  snd (on_chat_model_start "|" "langsmith:nostream" 2%N (Some ["fast"]) (Some 3) ex_scenario)
  = None
  ∧ stream (fst (on_llm_new_token u4 (ChatGenerationChunk 0) 2%N None
                   (fst (on_chat_model_start "|" "langsmith:nostream" 2%N (Some ["fast"])
                           (Some 3) ex_scenario))))
    = stream ex_scenario ++ [(["b"; "c"], "messages", (0, 3))].
Proof.
  apply (model_run_streams_under_namespace u4 "|" "langsmith:nostream" 2%N (Some ["fast"])
           3 "b|c" ["b"; "c"] 0 None ex_scenario); reflexivity.
Defined.


Lemma token_tags_written_witness :
  let filtered_tags :=
    List.filter (fun t => negb (startswith t "seq:step")) ["seq:step:1"; "fast"] in
  let st' := fst (on_llm_new_token u4 (ChatGenerationChunk 0) 7%N
                    (Some ["seq:step:1"; "fast"]) ex_token) in
  (filtered_tags = [] → dicts st' = dicts ex_token ∧ seqs st' = seqs ex_token)
  ∧ (filtered_tags ≠ [] →
     ∃ l, seqs ex_token !! l = None
       ∧ seqs st' !! l = Some (VStr <$> filtered_tags)
       ∧ assoc "tags" (dicts st' !!! 3) = Some (VSeq l)
       ∧ (∀ key, key ≠ "tags" →
            assoc key (dicts st' !!! 3) = assoc key (dicts ex_token !!! 3))
       ∧ (∀ d', d' ≠ 3 → dicts st' !! d' = dicts ex_token !! d')
       ∧ (∀ l', l' ≠ l → seqs st' !! l' = seqs ex_token !! l')
       ∧ checkpoint_ns "|" st' 3 = checkpoint_ns "|" ex_token 3).
Proof.
  apply (token_tags_written u4 "|" 7%N ["a"] 3 0 (Some ["seq:step:1"; "fast"]) ex_token).
  reflexivity.
Defined.



Lemma seeding_is_exact_witness :
  let st1 := fst (on_chain_start "|" "langsmith:hidden" (VDict 4) 2%N None (Some 3)
                    (Some "N") ex_inputs) in
  (∀ i, i ∈ self_seen st1 ↔
        i ∈ self_seen ex_inputs
        ∨ ∃ m x, i = Some x ∧ input_message ex_inputs (VDict 4) m
                 ∧ message_id ex_inputs m = Some x)
  ∧ stream st1 = stream ex_inputs
  ∧ messages st1 = messages ex_inputs.
Proof.
  apply (seeding_is_exact "|" "langsmith:hidden" (VDict 4) 2%N None 3 (Some "N") ["a"]
           ex_inputs); reflexivity.
Defined.

Lemma list_response_emitted_in_order_witness :
  let r := on_chain_end u4 (VSeq 0) 7%N ex_list in
  snd r = None
  ∧ stream (fst r) = stream ex_list ++ (chunk_of (["a"], 3) <$> [2; 3])
  ∧ self_seen (fst r) = list_to_set (message_id ex_list <$> [2; 3]) ∪ self_seen ex_list
  ∧ messages (fst r) = messages ex_list.
Proof.
  apply (list_response_emitted_in_order u4 7%N (["a"], 3) 0 [2; 3] ex_list).
  - reflexivity.
  - reflexivity.
  - assert (message_id ex_list <$> [2; 3] = [Some "m2"; Some "m3"]) as ->
      by reflexivity.
    apply NoDup_cons. split; [|apply NoDup_singleton].
    intros H%list_elem_of_singleton. discriminate.
  - intros m Hm.
    apply elem_of_cons in Hm as [->|Hm]; [split; by vm_compute|].
    apply list_elem_of_singleton in Hm as ->. split; by vm_compute.
Defined.

(** A response of two messages that carry the same identity: one chunk, for
    the first. *)
Example scenario_same_identity :
  stream (fst (on_chain_end u4 (VSeq 0) 7%N ex_two_runs))
  = [(["a"], "messages", (0, 3))].
Proof. vm_compute. reflexivity. Qed.
